(** * gpio-watch: the event loop of [main.c]

    A shallow embedding of [run_script] and [watch_pins] from [main.c],
    followed by the properties of the dispatch engine: the debounced
    `switch' state machine, pass-through lines, handler invocation and
    its exit status report, ordering inside one wake of [poll], and the
    behaviour on failing system calls.

    The program talks to the operating system all the time.  Every answer
    of the system (what [poll] returned, which bytes [read] delivered, the
    clock, whether a script exists, how the child ended) is an explicit
    input of the model, and everything the program does to the outside
    (log lines, child processes, waiting, [perror], [exit]) is recorded in
    a trace. *)

From Stdlib Require Import ZArith String Ascii List Lia DecimalString Sorted.
From Stdlib Require Import DecimalPos.
From stdpp Require Import base list strings.
Import ListNotations.
Local Open Scope Z_scope.

(** ** C data *)

(** [printf]'s [%d]. *)
Definition fmt_d (z : Z) : string := NilZero.string_of_int (Z.to_int z).

(** The first [n] characters of [s]. *)
Fixpoint truncate (n : nat) (s : string) : string :=
  match n, s with
  | S n', String c s' => String c (truncate n' s')
  | _, _ => EmptyString
  end.

(** [snprintf(buf, size, ...)]: the formatted text is cut so that it fits
    in [size] bytes together with the terminating NUL. *)
Definition snprintf (size : nat) (formatted : string) : string :=
  truncate (size - 1) formatted.

(** The double quote character, for the [\"%s\"] of a log format. *)
Definition dquote : string := String (ascii_of_nat 34) EmptyString.

(** [long long]: 64 bits, two's complement. *)
Definition LLONG_MIN : Z := - 2 ^ 63.
Definition LLONG_MAX : Z := 2 ^ 63 - 1.
Definition is_long_long (z : Z) : Prop := LLONG_MIN <= z <= LLONG_MAX.

Definition wrap_long_long (z : Z) : Z :=
  (z + 2 ^ 63) mod 2 ^ 64 - 2 ^ 63.

(** [a - b] on [long long].  ISO C leaves the overflowing case undefined;
    the wrapped result is what the subtraction instruction produces. *)
Definition sub_long_long (a b : Z) : Z := wrap_long_long (a - b).

(** The cast [(signed char) z]. *)
Definition signed_char (z : Z) : Z :=
  let m := z mod 256 in if m <? 128 then m else m - 256.

(** The wait status macros of [<sys/wait.h>] (glibc's [bits/waitstatus.h]). *)
Definition WTERMSIG (status : Z) : Z := Z.land status 127.
Definition WEXITSTATUS (status : Z) : Z :=
  Z.shiftr (Z.land status 65280) 8.
Definition WIFEXITED (status : Z) : bool := WTERMSIG status =? 0.
Definition WIFSIGNALED (status : Z) : bool :=
  0 <? Z.shiftr (signed_char (Z.land status 127 + 1)) 1.

(** The status word [wait] stores for a child that called [exit(code)]
    and for a child killed by signal [sig]. *)
Definition exited_with (code : Z) : Z := Z.shiftl (Z.land code 255) 8.
Definition killed_by (sig : Z) (core : bool) : Z :=
  Z.lor sig (if core then 128 else 0).

(** [POLLPRI] of [<poll.h>]. *)
Definition POLLPRI : Z := 2.

(** [struct pin] of [gpio.h], as [main.c] uses it: [p.pin] and [p.edge],
    both [int]. *)
Record struct_pin := { pin : Z; edge : Z }.

(** [struct pollfd]; [revents] is written by [poll] and is part of the
    input of a wake. *)
Record pollfd := { fd : Z; events : Z }.

(** ** What the program does to the outside *)

Inductive log_level := LOG_DEBUG | LOG_INFO | LOG_WARN.

Inductive event :=
| Log (level : log_level) (msg : string)
    (** one of the [LOG_...] macros of [logging.h] was invoked *)
| Run_script (pin_arg value_arg : Z)
    (** [run_script(pin, value)] was entered: the event `fired' *)
| Spawn (path : string) (argv : list string)
    (** [fork] made a child, and the child calls
        [execl(path, argv..., NULL)] *)
| Wait (status : Z)
    (** [wait(&status)]: the parent was blocked until this returned *)
| Perror (msg : string) (errno : Z).

(** A trace entry: the index in the pin table on whose behalf the event
    happened ([None] outside the [for] loop over the table). *)
Definition trace := list (option nat * event).

(** What [run_script] does to the heap: [malloc(size)] of line 74 and
    [free] of line 108.  The function owns one buffer, [script_path],
    so [Free] names no address. *)
Inductive heap_event :=
| Malloc (size : nat)
| Free.

(** [run_script] step by step: its events and its heap operations in
    the order of the source. *)
Inductive step :=
| Heap (h : heap_event)
| Out (e : event).

(** The events among some steps. *)
Fixpoint outs (ss : list step) : list event :=
  match ss with
  | [] => []
  | Out e :: ss' => e :: outs ss'
  | Heap _ :: ss' => outs ss'
  end.

(** The heap operations among some steps. *)
Fixpoint heap_ops (ss : list step) : list heap_event :=
  match ss with
  | [] => []
  | Heap h :: ss' => h :: heap_ops ss'
  | Out _ :: ss' => heap_ops ss'
  end.

(** Buffers allocated and not released by some steps. *)
Fixpoint live_buffers (ss : list step) : Z :=
  match ss with
  | [] => 0
  | Heap (Malloc _) :: ss' => live_buffers ss' + 1
  | Heap Free :: ss' => live_buffers ss' - 1
  | Out _ :: ss' => live_buffers ss'
  end.

(** ** What the outside answers *)

(** Around one call of [run_script]. *)
Record script_world := {
  is_file : string -> bool;   (** [is_file(path)] of [fileutil.h] *)
  fork_child : bool;          (** [fork] succeeded *)
  wait_status : Z             (** [status] when [wait] has returned *)
}.

(** For one pin in one wake of [poll]. *)
Record line_input := {
  revents : Z;                (** [fdlist[i].revents] *)
  read_bytes : list ascii;    (** what [read] delivered; [[]] if it failed *)
  tv_sec : Z;                 (** [clock_gettime(CLOCK_MONOTONIC)] *)
  world : script_world
}.

Record wake_input := {
  poll_ret : Z;
  poll_errno : Z;
  lines : nat -> line_input
}.

(** For one pin during start-up. *)
Record startup_line := {
  open_ret : string -> Z;     (** [open(path, O_RDONLY)] *)
  initial_read : list ascii   (** what the clearing [read] delivered *)
}.

(** Automatic storage that [watch_pins] declares without initialising. *)
Record indeterminate := {
  stack_down_at : nat -> Z;   (** [down_at[i]] *)
  stack_valbuf0 : ascii;
  stack_valbuf1 : ascii
}.

(** ** The locals of [watch_pins] that live across iterations *)

Record state := {
  switch_state : list Z;      (** [unsigned char switch_state[num_pins]] *)
  down_at : list Z;           (** [long long down_at[num_pins]] *)
  valbuf : list ascii;        (** [char valbuf[3]] *)
  fdlist : list pollfd
}.

Inductive outcome :=
| Running (st : state)        (** back at [poll] *)
| Exited (code : Z).          (** [exit(code)] *)

(** [read(fd, buf, n)]: the bytes delivered overwrite the start of [buf]. *)
Definition read_buf (buf : list ascii) (n : nat) (data : list ascii)
  : list ascii :=
  take n data ++ drop (length (take n data)) buf.

Definition char_at (buf : list ascii) (i : nat) : ascii :=
  nth i buf Ascii.zero.

(** [EINTR] of [<errno.h>]. *)
Definition EINTR : Z := 4.

(** ** [main]: the command line

    [getopt], [atoi] and [strchr] are the C library's; [parse_edge],
    [is_dir] and the three [pin_...] calls come from [gpio.h] and
    [fileutil.h].  What [getopt] returns is an input; [atoi] is glibc's,
    [(int) strtol(s, NULL, 10)]. *)

Definition LONG_MIN : Z := - 2 ^ 63.
Definition LONG_MAX : Z := 2 ^ 63 - 1.
Definition INT_MIN : Z := - 2 ^ 31.
Definition INT_MAX : Z := 2 ^ 31 - 1.

(** The cast [(int) z]. *)
Definition to_int (z : Z) : Z := (z + 2 ^ 31) mod 2 ^ 32 - 2 ^ 31.

(** [isspace] in the C locale. *)
Definition isspace (c : ascii) : bool :=
  let n := nat_of_ascii c in
  Nat.eqb n 32 || (Nat.leb 9 n && Nat.leb n 13).

Definition digit_of (c : ascii) : option Z :=
  let n := Z.of_nat (nat_of_ascii c) in
  if (48 <=? n) && (n <=? 57) then Some (n - 48) else None.

Fixpoint skip_space (s : string) : string :=
  match s with
  | String c s' => if isspace c then skip_space s' else s
  | EmptyString => s
  end.

(** The value of the digits at the start of [s], after [acc]. *)
Fixpoint digits (acc : Z) (s : string) : Z :=
  match s with
  | String c s' =>
      match digit_of c with
      | Some d => digits (acc * 10 + d) s'
      | None => acc
      end
  | EmptyString => acc
  end.

(** [strtol(s, NULL, 10)]: white space, an optional sign, digits; the
    result is held to the range of [long]. *)
Definition strtol10 (s : string) : Z :=
  let v :=
    match skip_space s with
    | String c s' =>
        if Ascii.eqb c "-" then - digits 0 s'
        else if Ascii.eqb c "+" then digits 0 s'
        else digits 0 (String c s')
    | EmptyString => 0
    end in
  Z.max LONG_MIN (Z.min LONG_MAX v).

Definition atoi (s : string) : Z := to_int (strtol10 s).

(** [strchr(s, c)], as [main] uses it: the text before the first [c]
    and the text after it, when there is one. *)
Fixpoint split_at (c : ascii) (s : string) : option (string * string) :=
  match s with
  | EmptyString => None
  | String a s' =>
      if Ascii.eqb a c then Some (EmptyString, s')
      else match split_at c s' with
           | Some (before, after) => Some (String a before, after)
           | None => None
           end
  end.

Definition newline_text : string := String (ascii_of_nat 10) EmptyString.

(** Default of the script directory, unless the build defines another. *)
Definition DEFAULT_SCRIPT_DIR : string := "/etc/gpio-scripts".

Definition OPT_SCRIPT_DIR : ascii := "s".
Definition OPT_DEFAULT_EDGE : ascii := "e".
Definition OPT_VERBOSE : ascii := "v".
Definition OPT_LOGFILE : ascii := "l".
Definition OPT_DETACH : ascii := "d".

(** The globals of [main.c], and [loglevel] of [logging.h];
    [num_pins] is the length of [g_pins]. *)
Record globals := {
  g_script_dir : string;
  g_logfile : option string;      (** [NULL] is [None] *)
  g_default_edge : Z;
  g_detach : Z;
  g_loglevel : Z;
  g_pins : list struct_pin
}.

(** What [main] does to the outside before [watch_pins]. *)
Inductive startup_event :=
| Fprintf_stderr (text : string)
| Log_error (msg : string)        (** [LOG_ERROR] *)
| Close (descriptor : Z)
| Dup (descriptor : Z)
| Pin_export (pin_arg : Z)
| Pin_set_edge (pin_arg edge_arg : Z)
| Pin_set_direction (pin_arg direction : Z)
| Daemon (nochdir noclose : Z).

(** What the outside answers to [main]. *)
Record main_input := {
  getopt_answers : list (ascii * string);
    (** [ch] and [optarg] of each call of [getopt] before it returns -1 *)
  operands : list string;         (** [argv[optind]] ... [argv[argc-1]] *)
  logfile_open : string -> Z;     (** [open(logfile, ..., 0644)] *)
  is_dir : string -> bool         (** [is_dir(path)] of [fileutil.h] *)
}.

Inductive phase :=
| Go (g : globals)
| Stop (code : Z).                (** [exit(code)] *)

(** [usage(stderr)]. *)
Definition usage_stderr : list startup_event :=
  [Fprintf_stderr ("gpio-watch: usage: gpio-watch [-l logfile] "
                   +:+ "[-s script_dir] [-e default_edge] [-dv] "
                   +:+ "pin[:edge] [...]" +:+ newline_text)].

Definition set_logfile (g : globals) (v : string) : globals :=
  {| g_script_dir := g_script_dir g; g_logfile := Some v;
     g_default_edge := g_default_edge g; g_detach := g_detach g;
     g_loglevel := g_loglevel g; g_pins := g_pins g |}.
Definition set_detach (g : globals) (v : Z) : globals :=
  {| g_script_dir := g_script_dir g; g_logfile := g_logfile g;
     g_default_edge := g_default_edge g; g_detach := v;
     g_loglevel := g_loglevel g; g_pins := g_pins g |}.
Definition set_script_dir (g : globals) (v : string) : globals :=
  {| g_script_dir := v; g_logfile := g_logfile g;
     g_default_edge := g_default_edge g; g_detach := g_detach g;
     g_loglevel := g_loglevel g; g_pins := g_pins g |}.
Definition set_default_edge (g : globals) (v : Z) : globals :=
  {| g_script_dir := g_script_dir g; g_logfile := g_logfile g;
     g_default_edge := v; g_detach := g_detach g;
     g_loglevel := g_loglevel g; g_pins := g_pins g |}.
Definition set_loglevel (g : globals) (v : Z) : globals :=
  {| g_script_dir := g_script_dir g; g_logfile := g_logfile g;
     g_default_edge := g_default_edge g; g_detach := g_detach g;
     g_loglevel := v; g_pins := g_pins g |}.
Definition add_pin (g : globals) (p : struct_pin) : globals :=
  {| g_script_dir := g_script_dir g; g_logfile := g_logfile g;
     g_default_edge := g_default_edge g; g_detach := g_detach g;
     g_loglevel := g_loglevel g; g_pins := g_pins g ++ [p] |}.

(** Lines 193-218: the [getopt] loop. *)
Fixpoint option_loop (parse_edge : string -> Z)
    (answers : list (ascii * string)) (g : globals)
    : list startup_event * phase :=
  match answers with
  | [] => ([], Go g)
  | (ch, optarg) :: rest =>
      if Ascii.eqb ch OPT_LOGFILE then
        option_loop parse_edge rest (set_logfile g optarg)
      else if Ascii.eqb ch OPT_DETACH then
        option_loop parse_edge rest (set_detach g 1)
      else if Ascii.eqb ch OPT_SCRIPT_DIR then
        option_loop parse_edge rest (set_script_dir g optarg)
      else if Ascii.eqb ch OPT_DEFAULT_EDGE then
        if parse_edge optarg =? -1 then
          ([Fprintf_stderr ("error: invalid edge value: " +:+ optarg
                            +:+ newline_text)], Stop 1)
        else
          option_loop parse_edge rest (set_default_edge g (parse_edge optarg))
      else if Ascii.eqb ch OPT_VERBOSE then
        option_loop parse_edge rest (set_loglevel g (g_loglevel g + 1))
      else if Ascii.eqb ch "?" then (usage_stderr, Stop 2)
      else option_loop parse_edge rest g
  end.

(** Lines 220-232: the log file takes the place of descriptors 1 and 2. *)
Definition redirect_output (inp : main_input) (g : globals)
    : list startup_event * phase :=
  match g_logfile g with
  | Some path =>
      let fd := logfile_open inp path in
      if fd =? -1 then
        ([Log_error ("failed to open logfile " +:+ path)], Stop 1)
      else ([Close 1; Close 2; Dup fd; Dup fd], Go g)
  | None => ([], Go g)
  end.

(** Lines 234-238. *)
Definition check_script_dir (inp : main_input) (g : globals)
    : list startup_event * phase :=
  if negb (is_dir inp (g_script_dir g)) then
    ([Log_error ("error: script directory " +:+ dquote +:+ g_script_dir g
                 +:+ dquote +:+ " does not exist.")], Stop 1)
  else ([], Go g).

(** Lines 240-267: one [pin[:edge]] operand after the other. *)
Fixpoint pinspec_loop (parse_edge : string -> Z) (args : list string)
    (g : globals) : list startup_event * phase :=
  match args with
  | [] => ([], Go g)
  | arg :: rest =>
      match split_at ":" arg with
      | Some (pinspec, pos) =>
          if parse_edge pos =? -1 then
            ([Fprintf_stderr ("error: unknown edge spec: " +:+ arg
                              +:+ newline_text)], Stop 1)
          else
            pinspec_loop parse_edge rest
              (add_pin g {| pin := atoi pinspec; edge := parse_edge pos |})
      | None =>
          pinspec_loop parse_edge rest
            (add_pin g {| pin := atoi arg; edge := g_default_edge g |})
      end
  end.

(** Lines 285-289. *)
Definition setup_pins (DIRECTION_IN : Z) (ps : list struct_pin)
    : list startup_event :=
  flat_map (fun p => [Pin_export (pin p);
                      Pin_set_edge (pin p) (edge p);
                      Pin_set_direction (pin p) DIRECTION_IN]) ps.

(** Line 291. *)
Definition detach_if_asked (g : globals) : list startup_event :=
  if g_detach g =? 0 then []
  else [Daemon 1 (match g_logfile g with Some _ => 1 | None => 0 end)].

(** One phase after the other, until one stops. *)
Definition and_then (r : list startup_event * phase)
    (k : globals -> list startup_event * phase)
    : list startup_event * phase :=
  match r with
  | (t, Go g) => let '(t', r') := k g in (t ++ t', r')
  | (t, Stop code) => (t, Stop code)
  end.

(** Lines 193-267 of [main]: the arguments. *)
Definition main_arguments (parse_edge : string -> Z) (inp : main_input)
    (g0 : globals) : list startup_event * phase :=
  and_then (option_loop parse_edge (getopt_answers inp) g0) (fun g1 =>
  and_then (redirect_output inp g1) (fun g2 =>
  and_then (check_script_dir inp g2) (fun g3 =>
  pinspec_loop parse_edge (operands inp) g3))).

Inductive main_result :=
| Exit (code : Z)
| Probe (g : globals)
    (** no pin yet: lines 269-283 look for scripts named 0 to 31 *)
| Watch (g : globals).
    (** [watch_pins()] runs with these globals *)

(** [main] up to the call of [watch_pins], for a command line that
    names at least one pin; without one it reaches line 269. *)
Definition main_startup (parse_edge : string -> Z) (DIRECTION_IN : Z)
    (inp : main_input) (g0 : globals)
    : list startup_event * main_result :=
  match main_arguments parse_edge inp g0 with
  | (t, Stop code) => (t, Exit code)
  | (t, Go g) =>
      match g_pins g with
      | [] => (t, Probe g)
      | _ :: _ =>
          (t ++ setup_pins DIRECTION_IN (g_pins g) ++ detach_if_asked g,
           Watch g)
      end
  end.

(** The globals as [main.c] initialises them. *)
Definition initial_globals (EDGE_BOTH loglevel : Z) : globals :=
  {| g_script_dir := DEFAULT_SCRIPT_DIR; g_logfile := None;
     g_default_edge := EDGE_BOTH; g_detach := 0;
     g_loglevel := loglevel; g_pins := [] |}.

(** *** Reading what [main] did *)

(** The argument of the last option [ch] among the answers of
    [getopt]. *)
Fixpoint last_arg (ch : ascii) (answers : list (ascii * string))
  : option string :=
  match answers with
  | [] => None
  | (c, optarg) :: rest =>
      match last_arg ch rest with
      | Some later => Some later
      | None => if Ascii.eqb c ch then Some optarg else None
      end
  end.

(** How often option [ch] occurs. *)
Fixpoint count_opt (ch : ascii) (answers : list (ascii * string)) : nat :=
  match answers with
  | [] => 0
  | (c, _) :: rest =>
      if Ascii.eqb c ch then S (count_opt ch rest) else count_opt ch rest
  end.

(** The letters that have a [case] in the [switch] of [main]. *)
Definition has_case (ch : ascii) : bool :=
  Ascii.eqb ch OPT_LOGFILE || Ascii.eqb ch OPT_DETACH
  || Ascii.eqb ch OPT_SCRIPT_DIR || Ascii.eqb ch OPT_DEFAULT_EDGE
  || Ascii.eqb ch OPT_VERBOSE || Ascii.eqb ch "?".

(** The table entry an operand stands for. *)
Definition entry_of (parse_edge : string -> Z) (default_edge : Z)
    (arg : string) : struct_pin :=
  match split_at ":" arg with
  | Some (pinspec, pos) => {| pin := atoi pinspec; edge := parse_edge pos |}
  | None => {| pin := atoi arg; edge := default_edge |}
  end.

(** The operand has a colon and [parse_edge] rejects what follows it. *)
Definition bad_edge_spec (parse_edge : string -> Z) (arg : string) : bool :=
  match split_at ":" arg with
  | Some (_, pos) => parse_edge pos =? -1
  | None => false
  end.

(** The event is a call that configures a pin or detaches. *)
Definition configures (e : startup_event) : bool :=
  match e with
  | Pin_export _ | Pin_set_edge _ _ | Pin_set_direction _ _ | Daemon _ _ =>
      true
  | _ => false
  end.

(** The globals with another table. *)
Definition set_pins (g : globals) (ps : list struct_pin) : globals :=
  {| g_script_dir := g_script_dir g; g_logfile := g_logfile g;
     g_default_edge := g_default_edge g; g_detach := g_detach g;
     g_loglevel := g_loglevel g; g_pins := ps |}.

(** What [redirect_output] does when it goes on. *)
Definition redirection (inp : main_input) (g : globals)
  : list startup_event :=
  match g_logfile g with
  | Some path =>
      [Close 1; Close 2; Dup (logfile_open inp path);
       Dup (logfile_open inp path)]
  | None => []
  end.

(** ** A sample configuration

    [gpio-watch 4 17:switch] with the default script directory, and
    sample values for the constants of [gpio.h]. *)

Module Sample.

Definition GPIODIRLEN : nat := 8.
Definition GPIO_BASE : string := "/sys/class/gpio".
Definition EDGE_BOTH : Z := 3.
Definition EDGE_SWITCH : Z := 4.
Definition script_dir : string := "/etc/gpio-scripts".

Definition pin4 : struct_pin := {| pin := 4; edge := EDGE_BOTH |}.
Definition pin17 : struct_pin := {| pin := 17; edge := EDGE_SWITCH |}.
Definition pins : list struct_pin := [pin4; pin17].

(** Every script exists and exits with [code]. *)
Definition script_exits (code : Z) : script_world :=
  {| is_file := fun _ => true; fork_child := true;
     wait_status := exited_with code |}.

(** No script exists. *)
Definition no_script : script_world :=
  {| is_file := fun _ => false; fork_child := true; wait_status := 0 |}.

Definition newline : ascii := ascii_of_nat 10.

(** The pin is ready, its value file reads [c] and a newline, at time
    [now]. *)
Definition reads (c : ascii) (now : Z) (o : script_world) : line_input :=
  {| revents := POLLPRI; read_bytes := [c; newline]; tv_sec := now;
     world := o |}.

Definition idle : line_input :=
  {| revents := 0; read_bytes := []; tv_sec := 0; world := no_script |}.

(** [poll] reports table entry [i] alone, reading [c] at time [now]. *)
Definition only (i : nat) (c : ascii) (now : Z) (o : script_world)
  : wake_input :=
  {| poll_ret := 1; poll_errno := 0;
     lines := fun j => if Nat.eqb j i then reads c now o else idle |}.

(** [poll] reports both entries at time [now]. *)
Definition both (c4 c17 : ascii) (now : Z) (o : script_world) : wake_input :=
  {| poll_ret := 2; poll_errno := 0;
     lines := fun j => if Nat.eqb j 0 then reads c4 now o
                       else reads c17 now o |}.

(** [poll] fails because a signal interrupted it. *)
Definition interrupted : wake_input :=
  {| poll_ret := -1; poll_errno := EINTR; lines := fun _ => idle |}.

(** A stack that happens to hold zeros. *)
Definition zeros : indeterminate :=
  {| stack_down_at := fun _ => 0; stack_valbuf0 := Ascii.zero;
     stack_valbuf1 := Ascii.zero |}.

(** Every [open] succeeds (descriptor [3 + i]) and reads 0. *)
Definition all_open : nat -> startup_line :=
  fun i => {| open_ret := fun _ => 3 + Z.of_nat i;
              initial_read := ["0"%char; newline] |}.

(** The value file of pin 4 cannot be opened, its [read] delivers
    nothing; pin 17 is fine. *)
Definition pin4_unopened : nat -> startup_line :=
  fun i => if Nat.eqb i 0
           then {| open_ret := fun _ => -1; initial_read := [] |}
           else {| open_ret := fun _ => 4; initial_read := ["0"%char; newline] |}.

(** The locals when both lines are confirmed at [s4], [s17] since time
    [since]. *)
Definition confirmed (s4 s17 since : Z) : state :=
  {| switch_state := [s4; s17]; down_at := [since; since];
     valbuf := ["0"%char; newline; Ascii.zero];
     fdlist := [{| fd := 3; events := POLLPRI |};
                {| fd := 4; events := POLLPRI |}] |}.

(** [poll] reports an error condition on every descriptor and
    [POLLPRI] on none ([POLLERR] is 8). *)
Definition errors_only : wake_input :=
  {| poll_ret := 2; poll_errno := 0;
     lines := fun _ => {| revents := 8; read_bytes := []; tv_sec := 100;
                          world := no_script |} |}.

(** The pin is ready but its [read] delivers nothing. *)
Definition reads_nothing (now : Z) (o : script_world) : line_input :=
  {| revents := POLLPRI; read_bytes := []; tv_sec := now; world := o |}.

(** A pin number of as many characters as [GPIODIRLEN]. *)
Definition long_pin : struct_pin := {| pin := 12345678; edge := EDGE_BOTH |}.

(** A [parse_edge] that knows four names. *)
Definition parse_edge (text : string) : Z :=
  if String.eqb text "rising" then 1
  else if String.eqb text "falling" then 2
  else if String.eqb text "both" then EDGE_BOTH
  else if String.eqb text "switch" then EDGE_SWITCH
  else -1.

Definition DIRECTION_IN : Z := 0.

(** [gpio-watch -v -D -s /srv/gpio -d 4 17:switch]; the directory
    exists. *)
Definition command_line : main_input :=
  {| getopt_answers := [("v"%char, ""); ("D"%char, "");
                        ("s"%char, "/srv/gpio"); ("d"%char, "")];
     operands := ["4"; "17:switch"];
     logfile_open := fun _ => 5;
     is_dir := fun _ => true |}.

(** [gpio-watch -l /var/log/gpio -s /nowhere 4:sideways]; the log file
    opens as descriptor 5, the directory does not exist. *)
Definition no_directory : main_input :=
  {| getopt_answers := [("l"%char, "/var/log/gpio"); ("s"%char, "/nowhere")];
     operands := ["4:sideways"];
     logfile_open := fun _ => 5;
     is_dir := fun _ => false |}.

(** [gpio-watch -e sideways 4]. *)
Definition bad_default_edge : main_input :=
  {| getopt_answers := [("e"%char, "sideways")];
     operands := ["4"];
     logfile_open := fun _ => 5;
     is_dir := fun _ => true |}.

End Sample.

Section Program.

(** Constants that [main.c] takes from [gpio.h]. *)
Variable GPIODIRLEN : nat.
Variable GPIO_BASE : string.
Variable EDGE_SWITCH : Z.

(** The globals [script_dir] and [pins]; [num_pins] is [length pins]. *)
Variable script_dir : string.
Variable pins : list struct_pin.

Definition script_path_of (pin : Z) : string :=
  snprintf (String.length script_dir + GPIODIRLEN + 2)
           (script_dir +:+ "/" +:+ fmt_d pin).

(** Lines 98-106: the report on the child's status. *)
Definition report_status (pin status : Z) : list event :=
  if WIFEXITED status then
    if negb (WEXITSTATUS status =? 0) then
      [Log LOG_WARN ("pin " +:+ fmt_d pin
                     +:+ ": event script exited with status = "
                     +:+ fmt_d (WEXITSTATUS status))]
    else []
  else if WIFSIGNALED status then
    [Log LOG_WARN ("pin " +:+ fmt_d pin
                   +:+ ": event script exited due to signal "
                   +:+ fmt_d (WTERMSIG status))]
  else [].

(** [run_script], its events.  The buffer that [malloc] provides for
    the path is the string [script_path] here; [run_script_steps] below
    is the same function with the allocation and the release of that
    buffer in place. *)
Definition run_script (o : script_world) (pin value : Z) : list event :=
  let script_path := script_path_of pin in
  Run_script pin value ::
  if negb (is_file o script_path) then
    [Log LOG_WARN ("pin " +:+ fmt_d pin +:+ ": script " +:+ dquote
                   +:+ script_path +:+ dquote +:+ " does not exist")]
  else
    let pin_str := snprintf GPIODIRLEN (fmt_d pin) in
    let value_str := fmt_d value in
    Log LOG_INFO ("pin " +:+ fmt_d pin +:+ ": running script "
                  +:+ script_path)
    :: (if fork_child o
        then [Spawn script_path [script_path; pin_str; value_str]]
        else [])
    ++ Wait (wait_status o)
    :: report_status pin (wait_status o).

(** [run_script], lines 63-110, with its heap operations: [malloc] at
    line 74, the [return] of line 82 inside the [is_file] test, [free] at
    line 108 as the last statement.  [malloc]'s result is used
    unchecked; it is taken to succeed. *)
Definition run_script_steps (o : script_world) (pin value : Z) : list step :=
  let script_path_len := (String.length script_dir + GPIODIRLEN + 2)%nat in
  let script_path := script_path_of pin in
  Out (Run_script pin value) ::
  Heap (Malloc script_path_len) ::
  if negb (is_file o script_path) then
    [Out (Log LOG_WARN ("pin " +:+ fmt_d pin +:+ ": script " +:+ dquote
                        +:+ script_path +:+ dquote +:+ " does not exist"))]
  else
    let pin_str := snprintf GPIODIRLEN (fmt_d pin) in
    let value_str := fmt_d value in
    Out (Log LOG_INFO ("pin " +:+ fmt_d pin +:+ ": running script "
                       +:+ script_path))
    :: (if fork_child o
        then [Out (Spawn script_path [script_path; pin_str; value_str])]
        else [])
    ++ Out (Wait (wait_status o))
    :: map Out (report_status pin (wait_status o))
    ++ [Heap Free].

(** Line 155: [LOG_DEBUG(`pin %d: received event`, pins[i].pin)]. *)
Definition received (p : struct_pin) : event :=
  Log LOG_DEBUG ("pin " +:+ fmt_d (pin p) +:+ ": received event").

(** Lines 154-182: the body of the [for] loop for pin [i].  The loop
    keeps [i] below [num_pins], the length of both arrays, so every
    access is in range there.  [lseek]'s result is not looked at; a
    [read] that delivers nothing leaves in [valbuf] what the previous
    [read], of any pin, put there. *)
Definition service_pin (i : nat) (p : struct_pin) (li : line_input)
    (st : state) : state * list event :=
  if Z.land (revents li) POLLPRI =? 0 then (st, [])
  else
    let vb := read_buf (valbuf st) 2 (read_bytes li) in
    let st := {| switch_state := switch_state st; down_at := down_at st;
                 valbuf := vb; fdlist := fdlist st |} in
    if edge p =? EDGE_SWITCH then
      let now := tv_sec li in
      if (switch_state st !!! i =? 0) && Ascii.eqb (char_at vb 0) "1" then
        if 1 <? sub_long_long now (down_at st !!! i) then
          ({| switch_state := <[i := 1]> (switch_state st);
              down_at := <[i := now]> (down_at st);
              valbuf := vb; fdlist := fdlist st |},
           received p :: run_script (world li) (pin p) 1)
        else (st, [received p])
      else if (switch_state st !!! i =? 1)
              && Ascii.eqb (char_at vb 0) "0" then
        if 1 <? sub_long_long now (down_at st !!! i) then
          ({| switch_state := <[i := 0]> (switch_state st);
              down_at := <[i := now]> (down_at st);
              valbuf := vb; fdlist := fdlist st |},
           received p :: run_script (world li) (pin p) 0)
        else (st, [received p])
      else (st, [received p])
    else
      (st, received p :: run_script (world li) (pin p)
                         (if Ascii.eqb (char_at vb 0) "1" then 1 else 0)).

Definition at_line (i : nat) (es : list event) : trace :=
  map (fun e => (Some i, e)) es.

(** Lines 153-183: [for (i=0; i<num_pins; i++)], from index [i] on. *)
Fixpoint for_pins (i : nat) (ps : list struct_pin) (w : wake_input)
    (st : state) : state * trace :=
  match ps with
  | [] => (st, [])
  | p :: ps' =>
      let '(st1, es) := service_pin i p (lines w i) st in
      let '(st2, t) := for_pins (S i) ps' w st1 in
      (st2, at_line i es ++ t)
  end.

(** Lines 145-183: one iteration of [while (1)]. *)
Definition wake (w : wake_input) (st : state) : trace * outcome :=
  if poll_ret w =? -1 then
    ([(None, Perror "poll" (poll_errno w))], Exited 1)
  else
    let '(st', t) := for_pins 0 pins w st in (t, Running st').

(** The locals when the [for] loop of a wake comes to entry [i]: the
    entries before it have had their turn. *)
Definition state_before (w : wake_input) (st : state) (i : nat) : state :=
  (for_pins 0 (take i pins) w st).1.

(** The events of the loop body for entry [i] in that wake. *)
Definition served (w : wake_input) (st : state) (i : nat) (p : struct_pin)
    : list event :=
  (service_pin i p (lines w i) (state_before w st i)).2.

(** [while (1)], for as many wakes as the list holds. *)
Fixpoint wait_loop (ws : list wake_input) (st : state) : trace * outcome :=
  match ws with
  | [] => ([], Running st)
  | w :: ws' =>
      match wake w st with
      | (t, Running st') =>
          let '(t', out) := wait_loop ws' st' in (t ++ t', out)
      | (t, Exited code) => (t, Exited code)
      end
  end.

Definition pin_path (p : struct_pin) : string :=
  snprintf (String.length GPIO_BASE + GPIODIRLEN + String.length "value" + 3)
           (GPIO_BASE +:+ "/gpio" +:+ fmt_d (pin p) +:+ "/value").

(** Lines 131-140: open every pin's value file and read it once. *)
Fixpoint open_pins (i : nat) (ps : list struct_pin)
    (boot : nat -> startup_line) (vb : list ascii)
    : list pollfd * list ascii :=
  match ps with
  | [] => ([], vb)
  | p :: ps' =>
      let fd := open_ret (boot i) (pin_path p) in
      let vb1 := read_buf vb 2 (initial_read (boot i)) in
      let '(fds, vb2) := open_pins (S i) ps' boot vb1 in
      ({| fd := fd; events := POLLPRI |} :: fds, vb2)
  end.

(** Lines 121-142: everything before [while (1)]. *)
Definition startup (mem : indeterminate) (boot : nat -> startup_line)
    : state :=
  let num_pins := length pins in
  let valbuf0 := [stack_valbuf0 mem; stack_valbuf1 mem; Ascii.zero] in
  let '(fds, vb) := open_pins 0 pins boot valbuf0 in
  {| switch_state := replicate num_pins 0;
     down_at := map (stack_down_at mem) (seq 0 num_pins);
     valbuf := vb;
     fdlist := fds |}.

(** [watch_pins], observed for the wakes in [ws]. *)
Definition watch_pins (mem : indeterminate) (boot : nat -> startup_line)
    (ws : list wake_input) : trace * outcome :=
  let st := startup mem boot in
  let '(t, out) := wait_loop ws st in
  ((None, Log LOG_INFO "starting to monitor for gpio events") :: t, out).

(** ** Reading a trace *)

(** The calls of [run_script] among some events: [(pin, value)]. *)
Fixpoint calls (es : list event) : list (Z * Z) :=
  match es with
  | [] => []
  | Run_script p v :: es' => (p, v) :: calls es'
  | _ :: es' => calls es'
  end.

(** The values fired on behalf of table entry [i], oldest first. *)
Fixpoint fired (i : nat) (t : trace) : list Z :=
  match t with
  | [] => []
  | (Some j, Run_script _ v) :: t' =>
      if Nat.eqb j i then v :: fired i t' else fired i t'
  | _ :: t' => fired i t'
  end.

(** [1, 0, 1, 0, ...] when [expect] is [1]. *)
Fixpoint alternates (expect : Z) (vs : list Z) : Prop :=
  match vs with
  | [] => True
  | v :: vs' => v = expect /\ alternates (1 - expect) vs'
  end.

(** Pin [i] is ready and its [read] delivered [b] first. *)
Definition ready_with (b : ascii) (li : line_input) : Prop :=
  Z.land (revents li) POLLPRI <> 0 /\
  exists rest, read_bytes li = b :: rest.

(** [st] after a [read] into [valbuf]. *)
Definition with_valbuf (st : state) (vb : list ascii) : state :=
  {| switch_state := switch_state st; down_at := down_at st;
     valbuf := vb; fdlist := fdlist st |}.

(** [st] after [down_at[i] = now; switch_state[i] = v]. *)
Definition confirm (st : state) (i : nat) (v now : Z) (vb : list ascii)
  : state :=
  {| switch_state := <[i := v]> (switch_state st);
     down_at := <[i := now]> (down_at st);
     valbuf := vb; fdlist := fdlist st |}.

(** Entry [i] of the two arrays is the same in [a] and [b]. *)
Definition same_line (i : nat) (a b : state) : Prop :=
  switch_state a !!! i = switch_state b !!! i
  /\ down_at a !!! i = down_at b !!! i
  /\ length (switch_state a) = length (switch_state b)
  /\ length (down_at a) = length (down_at b).

(** The byte read shows the level that is already confirmed. *)
Definition agrees (s : Z) (b : ascii) : Prop :=
  (s = 0 /\ b = "0"%char) \/ (s = 1 /\ b = "1"%char).

(** Every [Spawn] of [t] satisfies [P] and is followed at once by the
    [Wait] of the same line. *)
Fixpoint spawns_waited (P : option nat -> string -> list string -> Prop)
    (t : trace) : Prop :=
  match t with
  | [] => True
  | (tag, Spawn path argv) :: t' =>
      P tag path argv
      /\ (exists status t'', t' = (tag, Wait status) :: t'')
      /\ spawns_waited P t'
  | _ :: t' => spawns_waited P t'
  end.

(** The child made for event [(pin, value)] of line [i]. *)
Definition handler_of (i : nat) (pin value : Z)
    (tag : option nat) (path : string) (argv : list string) : Prop :=
  tag = Some i
  /\ path = script_path_of pin
  /\ argv = [script_path_of pin; snprintf GPIODIRLEN (fmt_d pin);
             fmt_d value].

(** The child made for some event of some line of the table, with
    value 0 or 1. *)
Definition handler_of_table
    (tag : option nat) (path : string) (argv : list string) : Prop :=
  exists i p value,
    pins !! i = Some p /\ (value = 0 \/ value = 1)
    /\ handler_of i (pin p) value tag path argv.

(** [x] belongs to a line that is not after the line of [y]. *)
Definition not_after (x y : option nat * event) : Prop :=
  forall a b, x.1 = Some a -> y.1 = Some b -> (a <= b)%nat.

(** The locals have the shape start-up gave them. *)
Definition well_shaped (st : state) : Prop :=
  length (valbuf st) = 3%nat
  /\ char_at (valbuf st) 2 = Ascii.zero
  /\ length (switch_state st) = length pins
  /\ length (down_at st) = length pins
  /\ length (fdlist st) = length pins
  /\ Forall (fun e => events e = POLLPRI) (fdlist st).

(** ** Strings and integers *)

Lemma length_append (a b : string) :
  String.length (a +:+ b) = (String.length a + String.length b)%nat.
Proof. induction a as [|c a IH]; simpl; [reflexivity | now rewrite IH]. Qed.

Lemma truncate_fits (n : nat) (s : string) :
  (String.length s <= n)%nat -> truncate n s = s.
Proof.
  revert n; induction s as [|c s IH]; intros [|n] Hn; simpl in *;
    try reflexivity; try lia.
  f_equal. apply IH. lia.
Qed.

Lemma truncate_length (n : nat) (s : string) :
  (String.length (truncate n s) <= n)%nat.
Proof.
  revert n; induction s as [|c s IH]; intros [|n]; simpl; try lia.
  specialize (IH n). lia.
Qed.

(** A pin whose value file was opened under its full name has a decimal
    form that fits in [pin_str]. *)
Lemma pin_path_whole_fits (p : struct_pin) :
  pin_path p = GPIO_BASE +:+ "/gpio" +:+ fmt_d (pin p) +:+ "/value" ->
  (String.length (fmt_d (pin p)) < GPIODIRLEN)%nat.
Proof.
  intros Hwhole.
  pose proof (truncate_length
                (String.length GPIO_BASE + GPIODIRLEN
                 + String.length "value" + 3 - 1)
                (GPIO_BASE +:+ "/gpio" +:+ fmt_d (pin p) +:+ "/value"))
    as Hlen.
  unfold pin_path, snprintf in Hwhole. rewrite Hwhole in Hlen.
  rewrite !length_append in Hlen. simpl in Hlen. lia.
Qed.

Lemma script_path_fits (pin : Z) :
  (String.length (fmt_d pin) <= GPIODIRLEN)%nat ->
  script_path_of pin = script_dir +:+ "/" +:+ fmt_d pin.
Proof.
  intros Hfit. unfold script_path_of, snprintf.
  apply truncate_fits. rewrite !length_append. simpl. lia.
Qed.

Lemma pin_str_fits (pin : Z) :
  (String.length (fmt_d pin) < GPIODIRLEN)%nat ->
  snprintf GPIODIRLEN (fmt_d pin) = fmt_d pin.
Proof. intros Hfit. apply truncate_fits. lia. Qed.

Lemma sub_long_long_exact (a b : Z) :
  is_long_long (a - b) -> sub_long_long a b = a - b.
Proof.
  unfold is_long_long, LLONG_MIN, LLONG_MAX, sub_long_long, wrap_long_long.
  intros H. rewrite Z.mod_small; lia.
Qed.

Lemma land_low_bits (a n : Z) :
  0 <= n -> Z.land a (2 ^ n - 1) = a mod 2 ^ n.
Proof. intros Hn. rewrite <- Z.land_ones by assumption.
       now rewrite Z.ones_equiv, Z.sub_1_r. Qed.

Lemma WTERMSIG_exited (code : Z) : WTERMSIG (exited_with code) = 0.
Proof.
  unfold WTERMSIG, exited_with.
  change 127 with (2 ^ 7 - 1). rewrite land_low_bits by lia.
  rewrite Z.shiftl_mul_pow2 by lia.
  change (2 ^ 8) with (2 * 2 ^ 7). rewrite Z.mul_assoc.
  apply Z.mod_mul. lia.
Qed.

Lemma WEXITSTATUS_exited (code : Z) :
  0 <= code <= 255 -> WEXITSTATUS (exited_with code) = code.
Proof.
  intros Hc. unfold WEXITSTATUS, exited_with.
  change 255 with (2 ^ 8 - 1). rewrite land_low_bits by lia.
  rewrite (Z.mod_small code) by lia.
  rewrite Z.shiftl_mul_pow2 by lia.
  assert (Hand : Z.land (code * 2 ^ 8) 65280 = code * 2 ^ 8).
  { apply Z.bits_inj'. intros n Hn.
    rewrite Z.land_spec.
    destruct (Z.ltb_spec n 8) as [Hlt | Hge].
    - rewrite Z.mul_pow2_bits_low by lia. reflexivity.
    - destruct (Z.ltb_spec n 16) as [Hlt | Hge'].
      + replace (Z.testbit 65280 n) with true; [apply andb_true_r |].
        assert (Hcases : n = 8 \/ n = 9 \/ n = 10 \/ n = 11 \/ n = 12 \/
                         n = 13 \/ n = 14 \/ n = 15) by lia.
        destruct Hcases as [-> | [-> | [-> | [-> | [-> | [-> | [-> | ->]]]]]]];
          reflexivity.
      + rewrite Z.mul_pow2_bits by lia.
        rewrite (Z.bits_above_log2 code (n - 8)); [reflexivity | lia |].
        destruct (Z.eq_dec code 0) as [-> | Hnz]; [simpl; lia |].
        apply Z.log2_lt_pow2; [lia |].
        apply Z.lt_le_trans with (2 ^ 8); [lia |].
        apply Z.pow_le_mono_r; lia. }
  rewrite Hand, Z.shiftr_div_pow2 by lia.
  apply Z.div_mul. lia.
Qed.

(** Signal numbers are few enough to try them all. *)
Lemma killed_by_checked :
  forallb (fun n : nat =>
             let sig := Z.of_nat n in
             forallb (fun core : bool =>
                        (WTERMSIG (killed_by sig core) =? sig)
                        && negb (WIFEXITED (killed_by sig core))
                        && WIFSIGNALED (killed_by sig core))
                     [false; true])
          (seq 1 126) = true.
Proof. vm_compute. reflexivity. Qed.

Lemma killed_by_decoded (sig : Z) (core : bool) :
  1 <= sig <= 126 ->
  WTERMSIG (killed_by sig core) = sig /\
  WIFEXITED (killed_by sig core) = false /\
  WIFSIGNALED (killed_by sig core) = true.
Proof.
  intros Hsig.
  pose proof killed_by_checked as Hall.
  rewrite forallb_forall in Hall.
  specialize (Hall (Z.to_nat sig)).
  rewrite Z2Nat.id in Hall by lia.
  assert (Hin : In (Z.to_nat sig) (seq 1 126)) by (apply in_seq; lia).
  specialize (Hall Hin). cbv zeta in Hall.
  rewrite forallb_forall in Hall.
  assert (Hc : In core [false; true]) by (destruct core; simpl; auto).
  specialize (Hall core Hc).
  apply andb_prop in Hall as [Hall Hsignaled].
  apply andb_prop in Hall as [Hterm Hexited].
  apply Z.eqb_eq in Hterm. apply negb_true_iff in Hexited.
  repeat split; assumption.
Qed.

(** ** The loop never gives up a line *)

Ltac break_if :=
  match goal with
  | |- context [if ?c then _ else _] => destruct c eqn:?
  end.

Lemma service_pin_fdlist i p li st :
  fdlist (service_pin i p li st).1 = fdlist st.
Proof. unfold service_pin. repeat break_if; reflexivity. Qed.

Lemma for_pins_fdlist ps : forall i w st,
  fdlist (for_pins i ps w st).1 = fdlist st.
Proof.
  induction ps as [|p ps IH]; intros i w st; simpl; [reflexivity |].
  pose proof (service_pin_fdlist i p (lines w i) st) as Hs.
  destruct (service_pin i p (lines w i) st) as [st1 es].
  specialize (IH (S i) w st1).
  destruct (for_pins (S i) ps w st1) as [st2 t].
  simpl in *. congruence.
Qed.

(** Unless [poll] fails, an iteration ends back at [poll] with the same
    descriptors: nothing a script does or fails to do stops the loop. *)
Lemma wake_continues (w : wake_input) (st : state) :
  poll_ret w <> -1 ->
  exists t st', wake w st = (t, Running st') /\ fdlist st' = fdlist st.
Proof.
  intros Hpoll. unfold wake.
  destruct (Z.eqb_spec (poll_ret w) (-1)) as [Heq | _]; [contradiction |].
  pose proof (for_pins_fdlist pins 0 w st) as Hfd.
  destruct (for_pins 0 pins w st) as [st' t].
  exists t, st'. split; [reflexivity | exact Hfd].
Qed.

(** ** Handler invocation *)

Lemma outs_app a b : outs (a ++ b) = outs a ++ outs b.
Proof.
  induction a as [|[h | e] a IH]; cbn [app outs]; [| | rewrite IH];
    auto.
Qed.

Lemma heap_ops_app a b : heap_ops (a ++ b) = heap_ops a ++ heap_ops b.
Proof.
  induction a as [|[h | e] a IH]; cbn [app heap_ops]; [| rewrite IH |];
    auto.
Qed.

Lemma live_buffers_app a b :
  live_buffers (a ++ b) = live_buffers a + live_buffers b.
Proof.
  induction a as [|[[n |] | e] a IH]; cbn [app live_buffers]; lia.
Qed.

Lemma outs_map_Out es : outs (map Out es) = es.
Proof. induction es as [|e es IH]; cbn; [| rewrite IH]; reflexivity. Qed.

Lemma heap_ops_map_Out es : heap_ops (map Out es) = [].
Proof. induction es as [|e es IH]; cbn; auto. Qed.

Lemma live_buffers_map_Out es : live_buffers (map Out es) = 0.
Proof. induction es as [|e es IH]; cbn; auto. Qed.

(** [run_script_steps] is [run_script] with the heap operations put
    in. *)
Lemma outs_run_script_steps o pin value :
  outs (run_script_steps o pin value) = run_script o pin value.
Proof.
  unfold run_script_steps, run_script.
  destruct (is_file o (script_path_of pin)); cbn [negb outs];
    [| reflexivity].
  destruct (fork_child o); cbn [app outs];
    rewrite outs_app, outs_map_Out; cbn [outs]; rewrite app_nil_r;
    reflexivity.
Qed.

(** The path that runs the script: the buffer is released at the end. *)
Lemma run_script_steps_found o pin value :
  is_file o (script_path_of pin) = true ->
  heap_ops (run_script_steps o pin value)
    = [Malloc (String.length script_dir + GPIODIRLEN + 2); Free]
  /\ live_buffers (run_script_steps o pin value) = 0
  /\ last (run_script_steps o pin value) = Some (Heap Free).
Proof.
  intros Hfound. unfold run_script_steps. rewrite Hfound.
  cbn [negb heap_ops live_buffers].
  destruct (fork_child o); cbn [app heap_ops live_buffers];
    rewrite heap_ops_app, live_buffers_app, heap_ops_map_Out,
      live_buffers_map_Out;
    (split; [reflexivity | split; [reflexivity |]]);
    rewrite ?app_comm_cons, last_snoc; reflexivity.
Qed.

(** The path without a script. *)
Lemma run_script_steps_missing o pin value :
  is_file o (script_path_of pin) = false ->
  run_script_steps o pin value =
    [Out (Run_script pin value);
     Heap (Malloc (String.length script_dir + GPIODIRLEN + 2));
     Out (Log LOG_WARN ("pin " +:+ fmt_d pin +:+ ": script " +:+ dquote
                        +:+ script_path_of pin +:+ dquote
                        +:+ " does not exist"))].
Proof.
  intros Hmissing. unfold run_script_steps. rewrite Hmissing. reflexivity.
Qed.

Lemma live_buffers_repeated ss n :
  live_buffers (concat (replicate n ss)) = Z.of_nat n * live_buffers ss.
Proof.
  induction n as [|n IH]; [reflexivity |].
  cbn [replicate concat]. rewrite live_buffers_app, IH. lia.
Qed.

(** C7. At a pin whose script [is_file] denies, [run_script] logs one
    warning and returns: no child is made, nothing is waited for, and
    the loop goes on with every descriptor in place.  The return is
    the one of line 82, ahead of the [free] of line 108: the buffer
    that line 74 allocated is never released, and [n] such events leave
    [n] buffers behind.  The path that does run the script ends with
    the [free], so there nothing stays allocated. *)
Theorem missing_script_leaks_its_path_buffer
    (o : script_world) (pin value : Z) :
  is_file o (script_path_of pin) = false ->
  run_script_steps o pin value =
    [Out (Run_script pin value);
     Heap (Malloc (String.length script_dir + GPIODIRLEN + 2));
     Out (Log LOG_WARN ("pin " +:+ fmt_d pin +:+ ": script " +:+ dquote
                        +:+ script_path_of pin +:+ dquote
                        +:+ " does not exist"))]
  /\ outs (run_script_steps o pin value) = run_script o pin value
  /\ heap_ops (run_script_steps o pin value)
       = [Malloc (String.length script_dir + GPIODIRLEN + 2)]
  /\ live_buffers (run_script_steps o pin value) = 1
  /\ (forall n,
        live_buffers (concat (replicate n (run_script_steps o pin value)))
        = Z.of_nat n)
  /\ (forall o',
        is_file o' (script_path_of pin) = true ->
        outs (run_script_steps o' pin value) = run_script o' pin value
        /\ heap_ops (run_script_steps o' pin value)
             = [Malloc (String.length script_dir + GPIODIRLEN + 2); Free]
        /\ live_buffers (run_script_steps o' pin value) = 0
        /\ last (run_script_steps o' pin value) = Some (Heap Free))
  /\ run_script o pin value =
       [Run_script pin value;
        Log LOG_WARN ("pin " +:+ fmt_d pin +:+ ": script " +:+ dquote
                      +:+ script_path_of pin +:+ dquote
                      +:+ " does not exist")]
  /\ (forall path argv, Spawn path argv ∉ run_script o pin value)
  /\ (forall status, Wait status ∉ run_script o pin value)
  /\ (forall w st, poll_ret w <> -1 ->
        exists t st', wake w st = (t, Running st')
                      /\ fdlist st' = fdlist st).
Proof.
  intros Hmissing.
  pose proof (run_script_steps_missing o pin value Hmissing) as Hsteps.
  assert (Hrun : run_script o pin value =
    [Run_script pin value;
     Log LOG_WARN ("pin " +:+ fmt_d pin +:+ ": script " +:+ dquote
                   +:+ script_path_of pin +:+ dquote
                   +:+ " does not exist")]).
  { rewrite <- outs_run_script_steps, Hsteps. reflexivity. }
  split; [exact Hsteps |].
  split; [apply outs_run_script_steps |].
  split; [rewrite Hsteps; reflexivity |].
  split; [rewrite Hsteps; reflexivity |].
  split.
  { intros n. rewrite live_buffers_repeated, Hsteps.
    cbn [live_buffers]. lia. }
  split.
  { intros o' Hfound.
    split; [apply outs_run_script_steps |].
    apply run_script_steps_found. exact Hfound. }
  split; [exact Hrun |].
  rewrite Hrun.
  split; [| split].
  - intros path argv Hin.
    apply elem_of_cons in Hin as [Heq | Hin]; [discriminate |].
    apply elem_of_cons in Hin as [Heq | Hin]; [discriminate |].
    inversion Hin.
  - intros status Hin.
    apply elem_of_cons in Hin as [Heq | Hin]; [discriminate |].
    apply elem_of_cons in Hin as [Heq | Hin]; [discriminate |].
    inversion Hin.
  - intros w st. apply wake_continues.
Qed.

(** C6. What follows [wait] in [run_script] is the status report
    alone.  A child that exited with 0 is not reported; one that
    exited with another code gets one warning that ends in the code;
    one killed by a signal gets one warning that ends in the signal
    number.  None of this stops the loop. *)
Theorem handler_status_is_reported (pin : Z) :
  (forall code, 0 <= code <= 255 ->
     report_status pin (exited_with code) =
       if code =? 0 then []
       else [Log LOG_WARN ("pin " +:+ fmt_d pin
                           +:+ ": event script exited with status = "
                           +:+ fmt_d code)])
  /\ (forall sig core, 1 <= sig <= 126 ->
        report_status pin (killed_by sig core) =
          [Log LOG_WARN ("pin " +:+ fmt_d pin
                         +:+ ": event script exited due to signal "
                         +:+ fmt_d sig)])
  /\ (forall o value, is_file o (script_path_of pin) = true ->
        exists before,
          run_script o pin value =
            before ++ Wait (wait_status o)
                   :: report_status pin (wait_status o)
          /\ forall status, Wait status ∉ before)
  /\ (forall w st, poll_ret w <> -1 ->
        exists t st', wake w st = (t, Running st')
                      /\ fdlist st' = fdlist st).
Proof.
  split; [| split; [| split]].
  - intros code Hcode. unfold report_status, WIFEXITED.
    rewrite WTERMSIG_exited, WEXITSTATUS_exited by assumption.
    simpl. destruct (code =? 0); reflexivity.
  - intros sig core Hsig.
    destruct (killed_by_decoded sig core Hsig) as (Hterm & Hex & Hsg).
    unfold report_status. rewrite Hex, Hsg, Hterm. reflexivity.
  - intros o value Hfile. unfold run_script. rewrite Hfile. simpl.
    exists (Run_script pin value
            :: Log LOG_INFO ("pin " +:+ fmt_d pin +:+ ": running script "
                             +:+ script_path_of pin)
            :: (if fork_child o
                then [Spawn (script_path_of pin)
                        [script_path_of pin;
                         snprintf GPIODIRLEN (fmt_d pin);
                         fmt_d value]]
                else [])).
    split; [reflexivity |].
    intros status Hin.
    apply elem_of_cons in Hin as [Heq | Hin]; [discriminate |].
    apply elem_of_cons in Hin as [Heq | Hin]; [discriminate |].
    destruct (fork_child o).
    + apply elem_of_cons in Hin as [Heq | Hin]; [discriminate |].
      inversion Hin.
    + inversion Hin.
  - intros w st. apply wake_continues.
Qed.

(** ** One pin in one wake *)

Lemma calls_report_status pin status : calls (report_status pin status) = [].
Proof. unfold report_status. repeat break_if; reflexivity. Qed.

Lemma calls_run_script o pin value :
  calls (run_script o pin value) = [(pin, value)].
Proof.
  pose proof (calls_report_status pin (wait_status o)) as Hrep.
  unfold run_script.
  destruct (negb (is_file o (script_path_of pin))); [reflexivity |].
  destruct (fork_child o); cbn [calls app]; rewrite Hrep; reflexivity.
Qed.

Lemma char_at_read_buf buf b rest : char_at (read_buf buf 2 (b :: rest)) 0 = b.
Proof. reflexivity. Qed.

Lemma service_pin_idle i p li st :
  Z.land (revents li) POLLPRI = 0 -> service_pin i p li st = (st, []).
Proof. intros H. unfold service_pin. rewrite H. reflexivity. Qed.

(** The `switch' branch of [service_pin], with the three tests of each
    arm gathered. *)
Lemma service_pin_switch i p li st b :
  edge p = EDGE_SWITCH -> ready_with b li ->
  let s := switch_state st !!! i in
  let elapsed := sub_long_long (tv_sec li) (down_at st !!! i) in
  let vb := read_buf (valbuf st) 2 (read_bytes li) in
  service_pin i p li st =
    if (s =? 0) && Ascii.eqb b "1" && (1 <? elapsed) then
      (confirm st i 1 (tv_sec li) vb,
       received p :: run_script (world li) (pin p) 1)
    else if (s =? 1) && Ascii.eqb b "0" && (1 <? elapsed) then
      (confirm st i 0 (tv_sec li) vb,
       received p :: run_script (world li) (pin p) 0)
    else (with_valbuf st vb, [received p]).
Proof.
  intros Hedge [Hready [rest Hread]]. cbv zeta.
  unfold service_pin.
  destruct (Z.eqb_spec (Z.land (revents li) POLLPRI) 0) as [H0 | _];
    [contradiction |].
  rewrite Hedge, Z.eqb_refl. cbn [switch_state down_at valbuf fdlist].
  rewrite Hread, char_at_read_buf.
  destruct (switch_state st !!! i =? 0), (Ascii.eqb b "1"),
    (switch_state st !!! i =? 1), (Ascii.eqb b "0"),
    (1 <? sub_long_long (tv_sec li) (down_at st !!! i));
    reflexivity.
Qed.

(** C2. On a line whose edge is not [EDGE_SWITCH], a readiness event
    whose [read] delivered [b] calls [run_script] exactly once, with 1
    when [b] is the character 1 and with 0 for any other character.
    Nothing is suppressed, the debounce arrays are not touched, and
    what happens does not depend on the state left by earlier
    events. *)
Theorem raw_line_fires_every_time i p li st b :
  edge p <> EDGE_SWITCH -> ready_with b li ->
  let v := if Ascii.eqb b "1" then 1 else 0 in
  (service_pin i p li st).2
    = received p :: run_script (world li) (pin p) v
  /\ calls (service_pin i p li st).2 = [(pin p, v)]
  /\ switch_state (service_pin i p li st).1 = switch_state st
  /\ down_at (service_pin i p li st).1 = down_at st
  /\ forall st2, (service_pin i p li st2).2 = (service_pin i p li st).2.
Proof.
  intros Hedge [Hready [rest Hread]] v.
  assert (Hsvc : forall st',
    service_pin i p li st' =
      (with_valbuf st' (read_buf (valbuf st') 2 (read_bytes li)),
       received p :: run_script (world li) (pin p) v)).
  { intros st'. unfold service_pin.
    destruct (Z.eqb_spec (Z.land (revents li) POLLPRI) 0) as [H0 | _];
      [contradiction |].
    destruct (Z.eqb_spec (edge p) EDGE_SWITCH) as [He | _];
      [contradiction |].
    rewrite Hread, char_at_read_buf. reflexivity. }
  rewrite Hsvc. cbn [fst snd calls received].
  rewrite calls_run_script.
  repeat split; try reflexivity.
  intros st2. rewrite Hsvc. reflexivity.
Qed.

(** *** Entries of other lines are left alone *)

Lemma same_line_refl i a : same_line i a a.
Proof. unfold same_line. auto. Qed.

Lemma same_line_trans i a b c :
  same_line i a b -> same_line i b c -> same_line i a c.
Proof. unfold same_line. intuition congruence. Qed.

Lemma same_line_sym i a b : same_line i a b -> same_line i b a.
Proof. unfold same_line. intuition congruence. Qed.

Lemma service_pin_lengths i p li st :
  length (switch_state (service_pin i p li st).1) = length (switch_state st)
  /\ length (down_at (service_pin i p li st).1) = length (down_at st).
Proof.
  unfold service_pin.
  repeat break_if; cbn [fst switch_state down_at];
    rewrite ?length_insert; auto.
Qed.

Lemma service_pin_other i j q li st :
  j <> i -> same_line i st (service_pin j q li st).1.
Proof.
  intros Hne. unfold service_pin, same_line.
  repeat break_if; cbn [fst switch_state down_at];
    rewrite ?length_insert, ?list_lookup_total_insert_ne by assumption;
    auto.
Qed.

Lemma calls_app es1 es2 : calls (es1 ++ es2) = calls es1 ++ calls es2.
Proof.
  induction es1 as [|e es1 IH]; [reflexivity |].
  destruct e; cbn [calls app]; rewrite IH; reflexivity.
Qed.

Lemma fired_app i t1 t2 : fired i (t1 ++ t2) = fired i t1 ++ fired i t2.
Proof.
  induction t1 as [|[[j|] e] t1 IH]; [reflexivity | |];
    destruct e; cbn [fired app]; rewrite ?IH; try reflexivity.
  destruct (Nat.eqb j i); reflexivity.
Qed.

Lemma fired_at_line_other i j es : j <> i -> fired i (at_line j es) = [].
Proof.
  intros Hne. apply Nat.eqb_neq in Hne.
  induction es as [|e es IH]; [reflexivity |].
  destruct e; cbn [at_line map fired]; fold (at_line j es);
    rewrite ?Hne; exact IH.
Qed.

Lemma fired_at_line_same i es : fired i (at_line i es) = (calls es).*2.
Proof.
  induction es as [|e es IH]; [reflexivity |].
  destruct e; cbn [at_line map fired calls]; fold (at_line i es);
    rewrite ?Nat.eqb_refl; cbn [fmap list_fmap snd]; rewrite ?IH;
    reflexivity.
Qed.

(** From index [j] on, the loop does not reach entry [i < j]. *)
Lemma for_pins_skips i ps : forall j w st,
  (i < j)%nat ->
  same_line i st (for_pins j ps w st).1
  /\ fired i (for_pins j ps w st).2 = [].
Proof.
  induction ps as [|q ps IH]; intros j w st Hlt; cbn [for_pins].
  - split; [apply same_line_refl | reflexivity].
  - pose proof (service_pin_other i j q (lines w j) st) as Hoth.
    destruct (service_pin j q (lines w j) st) as [st1 es].
    destruct (IH (S j) w st1) as [Hsame Hfired]; [lia |].
    destruct (for_pins (S j) ps w st1) as [st2 t].
    cbn [fst snd] in *. split.
    + eapply same_line_trans; [apply Hoth; lia | exact Hsame].
    + rewrite fired_app, fired_at_line_other, Hfired by lia. reflexivity.
Qed.

(** What one pass over the table does to entry [i] is what
    [service_pin] does for it. *)
Lemma for_pins_at_line i p ps : forall j w st,
  (j <= i)%nat -> ps !! (i - j)%nat = Some p ->
  exists st_mid,
    same_line i st st_mid
    /\ same_line i (service_pin i p (lines w i) st_mid).1
                   (for_pins j ps w st).1
    /\ fired i (for_pins j ps w st).2
       = (calls (service_pin i p (lines w i) st_mid).2).*2.
Proof.
  induction ps as [|q ps IH]; intros j w st Hle Hlook; [discriminate |].
  cbn [for_pins].
  destruct (decide (j = i)) as [-> | Hne].
  - rewrite Nat.sub_diag in Hlook. injection Hlook as ->.
    exists st. split; [apply same_line_refl |].
    destruct (service_pin i p (lines w i) st) as [st1 es].
    destruct (for_pins_skips i ps (S i) w st1) as [Hsame Hfired]; [lia |].
    destruct (for_pins (S i) ps w st1) as [st2 t].
    cbn [fst snd] in *. split; [exact Hsame |].
    rewrite fired_app, fired_at_line_same, Hfired.
    apply app_nil_r.
  - replace (i - j)%nat with (S (i - S j)) in Hlook by lia.
    cbn in Hlook.
    pose proof (service_pin_other i j q (lines w j) st Hne) as Hoth.
    destruct (service_pin j q (lines w j) st) as [st1 es].
    destruct (IH (S j) w st1) as (st_mid & Hmid & Hsame & Hfired);
      [lia | exact Hlook |].
    destruct (for_pins (S j) ps w st1) as [st2 t].
    cbn [fst snd] in *.
    exists st_mid. split; [| split].
    + eapply same_line_trans; [exact Hoth | exact Hmid].
    + exact Hsame.
    + rewrite fired_app, fired_at_line_other by assumption. exact Hfired.
Qed.

Lemma wake_at_line i p w st :
  pins !! i = Some p -> poll_ret w <> -1 ->
  exists st_mid t st',
    wake w st = (t, Running st')
    /\ same_line i st st_mid
    /\ same_line i (service_pin i p (lines w i) st_mid).1 st'
    /\ fired i t = (calls (service_pin i p (lines w i) st_mid).2).*2.
Proof.
  intros Hp Hpoll. unfold wake.
  destruct (Z.eqb_spec (poll_ret w) (-1)) as [Heq | _]; [contradiction |].
  destruct (for_pins_at_line i p pins 0 w st) as (st_mid & H1 & H2 & H3);
    [lia | now rewrite Nat.sub_0_r |].
  destruct (for_pins 0 pins w st) as [st' t]. cbn [fst snd] in *.
  exists st_mid, t, st'. auto.
Qed.

Lemma wake_failed w st :
  poll_ret w = -1 ->
  wake w st = ([(None, Perror "poll" (poll_errno w))], Exited 1).
Proof. intros H. unfold wake. rewrite H. reflexivity. Qed.

(** *** The debounced switch *)

Lemma switch_quiet i p li st b :
  edge p = EDGE_SWITCH -> ready_with b li ->
  agrees (switch_state st !!! i) b ->
  calls (service_pin i p li st).2 = []
  /\ same_line i st (service_pin i p li st).1.
Proof.
  intros Hedge Hready Hag.
  rewrite (service_pin_switch i p li st b Hedge Hready).
  destruct Hag as [[-> ->] | [-> ->]];
    cbn [Z.eqb Pos.eqb Ascii.eqb Bool.eqb andb];
    (split; [reflexivity | unfold same_line; cbn; auto]).
Qed.

Lemma wait_loop_quiet i p ws : forall st,
  pins !! i = Some p -> edge p = EDGE_SWITCH ->
  (forall w, w ∈ ws ->
     exists c, ready_with c (lines w i)
               /\ agrees (switch_state st !!! i) c) ->
  fired i (wait_loop ws st).1 = [].
Proof.
  induction ws as [|w ws IH]; intros st Hp Hedge Hall; [reflexivity |].
  cbn [wait_loop].
  destruct (Z.eq_dec (poll_ret w) (-1)) as [Hfail | Hok].
  - rewrite (wake_failed w st Hfail). reflexivity.
  - destruct (wake_at_line i p w st Hp Hok)
      as (st_mid & t & st' & Hwake & Hmid & Hsame & Hfired).
    rewrite Hwake.
    destruct (Hall w) as (c & Hready & Hag); [left |].
    destruct Hmid as (Hs & _).
    rewrite Hs in Hag.
    destruct (switch_quiet i p (lines w i) st_mid c Hedge Hready Hag)
      as [Hcalls Hkeep].
    rewrite Hcalls in Hfired.
    assert (Hs' : switch_state st' !!! i = switch_state st !!! i).
    { destruct Hkeep as (Hk & _), Hsame as (Hk' & _). congruence. }
    specialize (IH st' Hp Hedge).
    destruct (wait_loop ws st') as [t' out]. cbn [fst] in *.
    rewrite fired_app, Hfired, IH; [reflexivity |].
    intros w' Hin. rewrite Hs'. apply Hall. now right.
Qed.

(** C1. One readiness event on a line in `switch' mode, whose [read]
    delivered [b].  With confirmed state 0, [b] the character 1 and
    more than one second on the clock since the stored time stamp, the
    state becomes 1, the time stamp becomes the present time and
    [run_script] is called exactly once, with 1.  With confirmed state
    1 and [b] the character 0 the same happens with 0.  In every other
    case the state and the time stamp keep their values and
    [run_script] is not called.  The elapsed time is the plain
    difference of the two times whenever that fits in a [long long].
    Last, however often a byte that shows the confirmed level is read
    again, nothing fires. *)
Theorem switch_line_debounce i p li st b :
  edge p = EDGE_SWITCH -> ready_with b li ->
  (i < length (switch_state st))%nat -> (i < length (down_at st))%nat ->
  let s := switch_state st !!! i in
  let now := tv_sec li in
  let elapsed := sub_long_long now (down_at st !!! i) in
  let st' := (service_pin i p li st).1 in
  let es := (service_pin i p li st).2 in
  (s = 0 -> b = "1"%char -> 1 < elapsed ->
     switch_state st' = <[i := 1]> (switch_state st)
     /\ down_at st' = <[i := now]> (down_at st)
     /\ switch_state st' !!! i = 1
     /\ down_at st' !!! i = now
     /\ calls es = [(pin p, 1)])
  /\ (s = 1 -> b = "0"%char -> 1 < elapsed ->
        switch_state st' = <[i := 0]> (switch_state st)
        /\ down_at st' = <[i := now]> (down_at st)
        /\ switch_state st' !!! i = 0
        /\ down_at st' !!! i = now
        /\ calls es = [(pin p, 0)])
  /\ (~ (s = 0 /\ b = "1"%char /\ 1 < elapsed) ->
      ~ (s = 1 /\ b = "0"%char /\ 1 < elapsed) ->
        switch_state st' = switch_state st
        /\ down_at st' = down_at st
        /\ calls es = [])
  /\ (is_long_long (now - down_at st !!! i) ->
        elapsed = now - down_at st !!! i)
  /\ (forall ws st0,
        pins !! i = Some p ->
        (forall w, w ∈ ws ->
           exists c, ready_with c (lines w i)
                     /\ agrees (switch_state st0 !!! i) c) ->
        fired i (wait_loop ws st0).1 = []).
Proof.
  intros Hedge Hready Hi Hi' s now elapsed st' es.
  pose proof (service_pin_switch i p li st b Hedge Hready) as Hsvc.
  cbv zeta in Hsvc. fold s now elapsed in Hsvc.
  split; [| split; [| split; [| split]]].
  - intros Hs Hb Hel. subst st' es. rewrite Hsvc, Hs, Hb.
    apply Z.ltb_lt in Hel. rewrite Hel.
    cbn [Z.eqb Pos.eqb Ascii.eqb Bool.eqb andb fst snd confirm
         switch_state down_at calls received].
    rewrite calls_run_script.
    rewrite !list_lookup_total_insert_eq by assumption.
    repeat split; reflexivity.
  - intros Hs Hb Hel. subst st' es. rewrite Hsvc, Hs, Hb.
    apply Z.ltb_lt in Hel. rewrite Hel.
    cbn [Z.eqb Pos.eqb Ascii.eqb Bool.eqb andb fst snd confirm
         switch_state down_at calls received].
    rewrite calls_run_script.
    rewrite !list_lookup_total_insert_eq by assumption.
    repeat split; reflexivity.
  - intros Hno1 Hno0. subst st' es. rewrite Hsvc.
    destruct ((s =? 0) && Ascii.eqb b "1" && (1 <? elapsed)) eqn:H1.
    { exfalso. apply Hno1.
      apply andb_prop in H1 as [H1 Hel].
      apply andb_prop in H1 as [Hs Hb].
      apply Z.eqb_eq in Hs. apply Ascii.eqb_eq in Hb.
      apply Z.ltb_lt in Hel. auto. }
    destruct ((s =? 1) && Ascii.eqb b "0" && (1 <? elapsed)) eqn:H0.
    { exfalso. apply Hno0.
      apply andb_prop in H0 as [H0 Hel].
      apply andb_prop in H0 as [Hs Hb].
      apply Z.eqb_eq in Hs. apply Ascii.eqb_eq in Hb.
      apply Z.ltb_lt in Hel. auto. }
    repeat split; reflexivity.
  - apply sub_long_long_exact.
  - intros ws st0 Hp Hall. exact (wait_loop_quiet i p ws st0 Hp Hedge Hall).
Qed.

(** *** From start-up on *)

Lemma startup_arrays mem boot :
  switch_state (startup mem boot) = replicate (length pins) 0
  /\ down_at (startup mem boot)
     = map (stack_down_at mem) (seq 0 (length pins)).
Proof.
  unfold startup.
  destruct (open_pins 0 pins boot
              [stack_valbuf0 mem; stack_valbuf1 mem; Ascii.zero]).
  split; reflexivity.
Qed.

Lemma startup_line_entries i p mem boot :
  pins !! i = Some p ->
  switch_state (startup mem boot) !!! i = 0
  /\ down_at (startup mem boot) !!! i = stack_down_at mem i
  /\ (i < length (switch_state (startup mem boot)))%nat
  /\ (i < length (down_at (startup mem boot)))%nat.
Proof.
  intros Hp. apply lookup_lt_Some in Hp.
  destruct (startup_arrays mem boot) as [-> ->].
  rewrite length_replicate, length_map, length_seq.
  repeat split; try assumption.
  - now apply lookup_total_replicate_2.
  - apply list_lookup_total_correct.
    change (map (stack_down_at mem) (seq 0 (length pins)))
      with (stack_down_at mem <$> seq 0 (length pins)).
    rewrite list_lookup_fmap, lookup_seq_lt by assumption.
    reflexivity.
Qed.

(** Whatever was read and whenever: a `switch' line either stays
    quiet, or fires the opposite of its confirmed state and takes that
    value as the new confirmed state. *)
Lemma service_pin_flip i p li st :
  edge p = EDGE_SWITCH -> (i < length (switch_state st))%nat ->
  let s := switch_state st !!! i in
  (calls (service_pin i p li st).2 = []
   /\ switch_state (service_pin i p li st).1 !!! i = s)
  \/ (calls (service_pin i p li st).2 = [(pin p, 1 - s)]
      /\ switch_state (service_pin i p li st).1 !!! i = 1 - s
      /\ (s = 0 \/ s = 1)).
Proof.
  intros Hedge Hi s. unfold service_pin.
  rewrite Hedge, Z.eqb_refl.
  destruct (Z.land (revents li) POLLPRI =? 0); [left; auto |].
  cbn [switch_state down_at]. fold s.
  set (vb := read_buf (valbuf st) 2 (read_bytes li)).
  destruct ((s =? 0) && Ascii.eqb (char_at vb 0) "1") eqn:Hup.
  - destruct (1 <? sub_long_long (tv_sec li) (down_at st !!! i));
      [right | left; auto].
    apply andb_prop in Hup as [Hs _]. apply Z.eqb_eq in Hs.
    cbn [fst snd switch_state calls]. rewrite calls_run_script.
    rewrite list_lookup_total_insert_eq by assumption.
    rewrite Hs. auto.
  - destruct ((s =? 1) && Ascii.eqb (char_at vb 0) "0") eqn:Hdown;
      [| left; auto].
    destruct (1 <? sub_long_long (tv_sec li) (down_at st !!! i));
      [right | left; auto].
    apply andb_prop in Hdown as [Hs _]. apply Z.eqb_eq in Hs.
    cbn [fst snd switch_state calls]. rewrite calls_run_script.
    rewrite list_lookup_total_insert_eq by assumption.
    rewrite Hs. auto.
Qed.

Lemma last_cons (a d : Z) (l : list Z) :
  List.last (a :: l) d = List.last l a.
Proof.
  revert a d. induction l as [|x l IH]; intros a d; [reflexivity |].
  change (List.last (a :: x :: l) d) with (List.last (x :: l) d).
  rewrite !IH. reflexivity.
Qed.

Lemma wait_loop_alternates i p ws : forall st,
  pins !! i = Some p -> edge p = EDGE_SWITCH ->
  (i < length (switch_state st))%nat ->
  let s := switch_state st !!! i in
  alternates (1 - s) (fired i (wait_loop ws st).1)
  /\ forall st', (wait_loop ws st).2 = Running st' ->
       switch_state st' !!! i = List.last (fired i (wait_loop ws st).1) s.
Proof.
  induction ws as [|w ws IH]; intros st Hp Hedge Hi s.
  - cbn. split; [exact I |]. intros st' [= <-]. reflexivity.
  - cbn [wait_loop].
    destruct (Z.eq_dec (poll_ret w) (-1)) as [Hfail | Hok].
    { rewrite (wake_failed w st Hfail). cbn.
      split; [exact I | discriminate]. }
    destruct (wake_at_line i p w st Hp Hok)
      as (st_mid & t & st1 & Hwake & Hmid & Hsame & Hfired).
    rewrite Hwake.
    destruct Hmid as (Hs & _ & Hlen & _).
    destruct Hsame as (Hs1 & _ & Hlen1 & _).
    pose proof (service_pin_lengths i p (lines w i) st_mid) as [Hlen2 _].
    assert (Hi1 : (i < length (switch_state st1))%nat) by lia.
    assert (Hs' : switch_state st_mid !!! i = s) by (subst s; congruence).
    destruct (service_pin_flip i p (lines w i) st_mid Hedge)
      as [[Hcalls Hkeep] | (Hcalls & Hnew & Hbit)]; [lia | |];
      rewrite Hs' in *.
    + rewrite Hcalls in Hfired.
      specialize (IH st1 Hp Hedge Hi1). cbv zeta in IH.
      replace (switch_state st1 !!! i) with s in IH by (subst s; congruence).
      destruct (wait_loop ws st1) as [t' out]. cbn [fst snd] in *.
      rewrite fired_app, Hfired. exact IH.
    + rewrite Hcalls in Hfired.
      specialize (IH st1 Hp Hedge Hi1). cbv zeta in IH.
      replace (switch_state st1 !!! i) with (1 - s) in IH
        by (subst s; congruence).
      replace (1 - (1 - s)) with s in IH by lia.
      destruct (wait_loop ws st1) as [t' out]. cbn [fst snd] in *.
      rewrite fired_app, Hfired. cbn [fmap list_fmap snd app alternates].
      destruct IH as [Halt Hlast].
      split; [split; [reflexivity | ] |].
      * replace (1 - (1 - s)) with s by lia. exact Halt.
      * intros st' Hout. rewrite last_cons. apply Hlast, Hout.
Qed.

(** C9. A `switch' line starts with confirmed state 0.  Over any
    number of wakes the values fired for it read 1, 0, 1, 0, ...; the
    first one, if any, is 1; and whenever the loop is back at [poll]
    the confirmed state is the value fired last (0 when nothing was
    fired yet).  A call of [run_script] for the line leaves its value
    as the confirmed state. *)
Theorem switch_fires_alternate i p mem boot ws :
  pins !! i = Some p -> edge p = EDGE_SWITCH ->
  let r := watch_pins mem boot ws in
  switch_state (startup mem boot) !!! i = 0
  /\ alternates 1 (fired i r.1)
  /\ (forall v vs, fired i r.1 = v :: vs -> v = 1)
  /\ (forall st, r.2 = Running st ->
        switch_state st !!! i = List.last (fired i r.1) 0)
  /\ (forall li st v,
        (i < length (switch_state st))%nat ->
        calls (service_pin i p li st).2 = [(pin p, v)] ->
        switch_state (service_pin i p li st).1 !!! i = v).
Proof.
  intros Hp Hedge r.
  destruct (startup_line_entries i p mem boot Hp) as (H0 & _ & Hi & _).
  pose proof (wait_loop_alternates i p ws (startup mem boot) Hp Hedge Hi)
    as Hloop.
  cbv zeta in Hloop. rewrite H0 in Hloop.
  subst r. unfold watch_pins.
  destruct (wait_loop ws (startup mem boot)) as [t out].
  cbn [fst snd fired] in *.
  destruct Hloop as [Halt Hlast].
  split; [exact H0 | split; [exact Halt | split; [| split]]].
  - intros v vs Hf. rewrite Hf in Halt. destruct Halt as [-> _].
    reflexivity.
  - exact Hlast.
  - intros li st v Hlt Hcalls.
    destruct (service_pin_flip i p li st Hedge Hlt)
      as [[Hnone _] | (Hone & Hnew & _)].
    + rewrite Hnone in Hcalls. discriminate.
    + rewrite Hone in Hcalls. injection Hcalls as <-. exact Hnew.
Qed.

(** C10. [down_at[i]] is not written before the loop: when the loop
    starts it still holds whatever the stack held.  The first debounce
    test of a `switch' line compares the clock with that value, so for
    one and the same behaviour of the outside the first 1 read on the
    line fires with some stack contents and does not fire with
    others. *)
Theorem first_debounce_reads_indeterminate i p boot w :
  pins !! i = Some p -> edge p = EDGE_SWITCH ->
  poll_ret w <> -1 -> ready_with "1" (lines w i) ->
  0 <= tv_sec (lines w i) <= LLONG_MAX ->
  (forall mem, down_at (startup mem boot) !!! i = stack_down_at mem i)
  /\ (forall mem,
        fired i (watch_pins mem boot [w]).1 =
          if 1 <? sub_long_long (tv_sec (lines w i)) (stack_down_at mem i)
          then [1] else [])
  /\ exists mem1 mem2,
       is_long_long (stack_down_at mem1 i)
       /\ is_long_long (stack_down_at mem2 i)
       /\ fired i (watch_pins mem1 boot [w]).1 = [1]
       /\ fired i (watch_pins mem2 boot [w]).1 = [].
Proof.
  intros Hp Hedge Hok Hready Hnow.
  assert (Hfirst : forall mem,
    fired i (watch_pins mem boot [w]).1 =
      if 1 <? sub_long_long (tv_sec (lines w i)) (stack_down_at mem i)
      then [1] else []).
  { intros mem.
    destruct (startup_line_entries i p mem boot Hp) as (Hs0 & Hd0 & _ & _).
    unfold watch_pins. cbn [wait_loop].
    destruct (wake_at_line i p w (startup mem boot) Hp Hok)
      as (st_mid & t & st' & Hwake & Hmid & _ & Hfired).
    rewrite Hwake. cbn [fst fired]. rewrite app_nil_r, Hfired.
    destruct Hmid as (Hs & Hd & _ & _).
    rewrite (service_pin_switch i p (lines w i) st_mid "1" Hedge Hready).
    rewrite <- Hs, <- Hd, Hs0, Hd0.
    cbn [Z.eqb Pos.eqb Ascii.eqb Bool.eqb andb].
    destruct (1 <? sub_long_long (tv_sec (lines w i)) (stack_down_at mem i));
      cbn [snd calls received]; rewrite ?calls_run_script; reflexivity. }
  split; [| split; [exact Hfirst |]].
  - intros mem. apply (startup_line_entries i p mem boot Hp).
  - unfold LLONG_MAX in Hnow.
    exists {| stack_down_at := fun _ => tv_sec (lines w i) - 2;
              stack_valbuf0 := Ascii.zero; stack_valbuf1 := Ascii.zero |},
           {| stack_down_at := fun _ => tv_sec (lines w i);
              stack_valbuf0 := Ascii.zero; stack_valbuf1 := Ascii.zero |}.
    rewrite !Hfirst. cbn [stack_down_at].
    rewrite !sub_long_long_exact
      by (unfold is_long_long, LLONG_MIN, LLONG_MAX; lia).
    replace (tv_sec (lines w i) - (tv_sec (lines w i) - 2)) with 2 by lia.
    rewrite Z.sub_diag.
    unfold is_long_long, LLONG_MIN, LLONG_MAX.
    repeat split; try reflexivity; lia.
Qed.

(** ** System calls that fail *)

Lemma open_pins_lookup boot ps : forall j vb k p,
  ps !! k = Some p ->
  (open_pins j ps boot vb).1 !! k
  = Some {| fd := open_ret (boot (j + k)%nat) (pin_path p);
            events := POLLPRI |}.
Proof.
  induction ps as [|q ps IH]; intros j vb k p Hk; [discriminate |].
  cbn [open_pins].
  specialize (IH (S j) (read_buf vb 2 (initial_read (boot j)))).
  destruct (open_pins (S j) ps boot (read_buf vb 2 (initial_read (boot j))))
    as [fds vb2].
  cbn [fst] in *.
  destruct k as [|k].
  - injection Hk as ->. rewrite Nat.add_0_r. reflexivity.
  - rewrite lookup_cons in Hk. rewrite lookup_cons, (IH k p Hk).
    replace (S j + k)%nat with (j + S k)%nat by lia. reflexivity.
Qed.

Lemma open_pins_length boot ps : forall j vb,
  length (open_pins j ps boot vb).1 = length ps.
Proof.
  induction ps as [|q ps IH]; intros j vb; [reflexivity |].
  cbn [open_pins].
  specialize (IH (S j) (read_buf vb 2 (initial_read (boot j)))).
  destruct (open_pins (S j) ps boot (read_buf vb 2 (initial_read (boot j)))).
  cbn [fst length] in *. now rewrite IH.
Qed.

Lemma startup_fdlist mem boot :
  fdlist (startup mem boot)
  = (open_pins 0 pins boot
       [stack_valbuf0 mem; stack_valbuf1 mem; Ascii.zero]).1.
Proof.
  unfold startup.
  destruct (open_pins 0 pins boot
              [stack_valbuf0 mem; stack_valbuf1 mem; Ascii.zero]).
  reflexivity.
Qed.

Lemma wait_loop_exit ws : forall st code,
  (wait_loop ws st).2 = Exited code ->
  code = 1 /\ exists w, w ∈ ws /\ poll_ret w = -1.
Proof.
  induction ws as [|w ws IH]; intros st code Hexit; [discriminate |].
  cbn [wait_loop] in Hexit.
  destruct (Z.eq_dec (poll_ret w) (-1)) as [Hfail | Hok].
  - rewrite (wake_failed w st Hfail) in Hexit. injection Hexit as <-.
    split; [reflexivity |]. exists w. split; [left | exact Hfail].
  - destruct (wake_continues w st Hok) as (t & st' & Hwake & _).
    rewrite Hwake in Hexit.
    specialize (IH st' code).
    destruct (wait_loop ws st') as [t' out]. cbn [snd] in *.
    destruct (IH Hexit) as (Hcode & w' & Hin & Hret).
    split; [exact Hcode |]. exists w'. split; [now right | exact Hret].
Qed.

(** C3, as the code has it.  Start-up looks at neither the result of
    [open] nor that of the first [read]: each line is entered in the
    poll set with whatever descriptor [open] returned, a failed one
    included, and the loop is reached in every case.  [watch_pins]
    exits only after a failed [poll], with status 1. *)
Theorem startup_ignores_open_and_read_results mem boot :
  (forall i p, pins !! i = Some p ->
     fdlist (startup mem boot) !! i
     = Some {| fd := open_ret (boot i) (pin_path p); events := POLLPRI |})
  /\ length (fdlist (startup mem boot)) = length pins
  /\ (watch_pins mem boot []).2 = Running (startup mem boot)
  /\ (forall ws code, (watch_pins mem boot ws).2 = Exited code ->
        code = 1 /\ exists w, w ∈ ws /\ poll_ret w = -1).
Proof.
  split; [| split; [| split]].
  - intros i p Hp. rewrite startup_fdlist.
    apply (open_pins_lookup boot pins 0 _ i p Hp).
  - rewrite startup_fdlist. apply open_pins_length.
  - reflexivity.
  - intros ws code Hexit. unfold watch_pins in Hexit.
    pose proof (wait_loop_exit ws (startup mem boot) code) as Hloop.
    destruct (wait_loop ws (startup mem boot)) as [t out].
    apply Hloop, Hexit.
Qed.

(** C4, as the code has it.  When [poll] returns -1 the iteration
    calls [perror] and exits with status 1 whatever [errno] says, an
    interrupted call included; when it returns anything else the
    iteration ends back at [poll]. *)
Theorem poll_failure_is_fatal_whatever_errno w st :
  (poll_ret w = -1 ->
     wake w st = ([(None, Perror "poll" (poll_errno w))], Exited 1))
  /\ (poll_ret w <> -1 -> exists t st', wake w st = (t, Running st'))
  /\ ((exists t code, wake w st = (t, Exited code)) <-> poll_ret w = -1).
Proof.
  split; [apply wake_failed | split].
  - intros Hok. destruct (wake_continues w st Hok) as (t & st' & H & _).
    eauto.
  - split.
    + intros (t & code & Hexit).
      destruct (Z.eq_dec (poll_ret w) (-1)) as [Hfail | Hok];
        [exact Hfail |].
      destruct (wake_continues w st Hok) as (t' & st' & H & _).
      rewrite H in Hexit. discriminate.
    + intros Hfail. rewrite (wake_failed w st Hfail). eauto.
Qed.

(** ** Children and the order of events in one wake *)

Lemma spawns_waited_tail P x t :
  spawns_waited P (x :: t) -> spawns_waited P t.
Proof. destruct x as [tag []]; cbn; tauto. Qed.

Lemma spawns_waited_app P t1 t2 :
  spawns_waited P t1 -> spawns_waited P t2 -> spawns_waited P (t1 ++ t2).
Proof.
  intros H1 H2. induction t1 as [|[tag e] t1 IH]; [exact H2 |].
  destruct e; cbn in *; try (apply IH; exact H1).
  destruct H1 as (HP & (status & t'' & ->) & Hrest).
  split; [exact HP | split; [| apply IH; exact Hrest]].
  exists status, (t'' ++ t2). reflexivity.
Qed.

Lemma spawns_waited_weaken (P Q : option nat -> string -> list string -> Prop) t :
  (forall tag path argv, P tag path argv -> Q tag path argv) ->
  spawns_waited P t -> spawns_waited Q t.
Proof.
  intros HPQ. induction t as [|[tag e] t IH]; [auto |].
  destruct e; cbn; auto.
  intros (HP & Hw & Hrest). auto.
Qed.

Lemma spawns_waited_split P t1 : forall t tag path argv t2,
  spawns_waited P t ->
  t = t1 ++ (tag, Spawn path argv) :: t2 ->
  P tag path argv /\ exists status t3, t2 = (tag, Wait status) :: t3.
Proof.
  induction t1 as [|x t1 IH]; intros t tag path argv t2 Hok ->.
  - cbn in Hok. tauto.
  - eapply IH; [| reflexivity].
    exact (spawns_waited_tail P x _ Hok).
Qed.

Lemma report_status_spawns P i pin status :
  spawns_waited P (at_line i (report_status pin status)).
Proof. unfold report_status. repeat break_if; exact I. Qed.

Lemma run_script_spawns i o pin value :
  spawns_waited (handler_of i pin value) (at_line i (run_script o pin value)).
Proof.
  pose proof (report_status_spawns (handler_of i pin value) i pin
                (wait_status o)) as Hrep.
  unfold run_script.
  destruct (negb (is_file o (script_path_of pin))); [exact I |].
  destruct (fork_child o); cbn [app at_line map spawns_waited];
    [| exact Hrep].
  split; [unfold handler_of; auto | split; [| exact Hrep]].
  eexists _, _. reflexivity.
Qed.

Lemma service_pin_spawns i p li st :
  pins !! i = Some p ->
  spawns_waited handler_of_table (at_line i (service_pin i p li st).2).
Proof.
  intros Hp.
  assert (Hrun : forall value, value = 0 \/ value = 1 ->
    spawns_waited handler_of_table
      (at_line i (received p :: run_script (world li) (pin p) value))).
  { intros value Hv. cbn [at_line map received spawns_waited].
    eapply spawns_waited_weaken; [| apply run_script_spawns].
    intros tag path argv H. exists i, p, value. auto. }
  unfold service_pin.
  destruct (Z.land (revents li) POLLPRI =? 0); [exact I |].
  destruct (edge p =? EDGE_SWITCH).
  - repeat break_if; cbn [snd]; try exact I; apply Hrun; auto.
  - cbn [snd]. apply Hrun. break_if; auto.
Qed.

Lemma for_pins_spawns ps : forall j w st,
  (forall k p, ps !! k = Some p -> pins !! (j + k)%nat = Some p) ->
  spawns_waited handler_of_table (for_pins j ps w st).2.
Proof.
  induction ps as [|q ps IH]; intros j w st Htable; [exact I |].
  cbn [for_pins].
  pose proof (service_pin_spawns j q (lines w j) st) as Hq.
  destruct (service_pin j q (lines w j) st) as [st1 es].
  specialize (IH (S j) w st1).
  destruct (for_pins (S j) ps w st1) as [st2 t]. cbn [snd] in *.
  apply spawns_waited_app.
  - apply Hq. rewrite <- (Nat.add_0_r j). apply Htable. reflexivity.
  - apply IH. intros k p Hk.
    replace (S j + k)%nat with (j + S k)%nat by lia.
    apply Htable. exact Hk.
Qed.

Lemma wake_spawns w st :
  spawns_waited handler_of_table (wake w st).1.
Proof.
  unfold wake. destruct (poll_ret w =? -1); [exact I |].
  pose proof (for_pins_spawns pins 0 w st) as H.
  destruct (for_pins 0 pins w st) as [st' t].
  apply H. intros k p Hk. exact Hk.
Qed.

(** C5. When the script exists and [fork] succeeds, [run_script] for
    the event [(pin, value)] makes one child that runs [execl] with
    the handler path and three arguments: the path again, the pin in
    decimal and the value in decimal; the next thing the parent does
    is to return from [wait].  Every child made in a wake is of this
    kind, for a line of the table and with "0" or "1" as the value.
    The path is the script directory, a slash and the pin in decimal,
    and the second argument is the pin in decimal, for every pin whose
    decimal form is shorter than [GPIODIRLEN], the size of [pin_str];
    among these is every pin whose value file start-up opened under
    its full name. *)
Theorem handler_gets_path_pin_and_value :
  (forall o pin value,
     (String.length (fmt_d pin) < GPIODIRLEN)%nat ->
     is_file o (script_path_of pin) = true -> fork_child o = true ->
     let path := script_dir +:+ "/" +:+ fmt_d pin in
     run_script o pin value =
       [Run_script pin value;
        Log LOG_INFO ("pin " +:+ fmt_d pin +:+ ": running script "
                      +:+ path);
        Spawn path [path; fmt_d pin; fmt_d value];
        Wait (wait_status o)]
       ++ report_status pin (wait_status o))
  /\ (fmt_d 0 = "0" /\ fmt_d 1 = "1")
  /\ (forall w st t1 tag path argv t2,
        (forall p, p ∈ pins ->
           (String.length (fmt_d (pin p)) < GPIODIRLEN)%nat) ->
        (wake w st).1 = t1 ++ (tag, Spawn path argv) :: t2 ->
        exists i p v,
          tag = Some i /\ pins !! i = Some p
          /\ path = script_dir +:+ "/" +:+ fmt_d (pin p)
          /\ argv = [path; fmt_d (pin p); v]
          /\ (v = "0" \/ v = "1")
          /\ exists status t3, t2 = (tag, Wait status) :: t3)
  /\ (forall p,
        pin_path p = GPIO_BASE +:+ "/gpio" +:+ fmt_d (pin p) +:+ "/value" ->
        (String.length (fmt_d (pin p)) < GPIODIRLEN)%nat).
Proof.
  split; [| split; [split; reflexivity | split; [| apply pin_path_whole_fits]]].
  - intros o pin value Hfit Hfile Hfork path.
    unfold run_script.
    rewrite Hfile, Hfork, pin_str_fits, script_path_fits by lia.
    reflexivity.
  - intros w st t1 tag path argv t2 Hfit Ht.
    destruct (spawns_waited_split handler_of_table t1 _ tag path argv t2
                (wake_spawns w st) Ht)
      as [(i & p & value & Hp & Hv & Htag & Hpath & Hargv) Hwait].
    assert (Hlen : (String.length (fmt_d (pin p)) < GPIODIRLEN)%nat).
    { apply Hfit. apply list_elem_of_lookup. eauto. }
    rewrite script_path_fits in Hpath, Hargv by lia.
    rewrite pin_str_fits in Hargv by exact Hlen.
    exists i, p, (fmt_d value). subst path.
    repeat split; try assumption.
    destruct Hv as [-> | ->]; [left | right]; reflexivity.
Qed.

(** *** Order *)

Lemma at_line_before j es t :
  StronglySorted not_after t ->
  Forall (fun y => exists k, y.1 = Some k /\ (j <= k)%nat) t ->
  StronglySorted not_after (at_line j es ++ t).
Proof.
  intros Hsorted Hfrom.
  induction es as [|e es IH]; [exact Hsorted |].
  cbn [at_line map app]. fold (at_line j es).
  apply SSorted_cons; [exact IH |].
  apply Forall_app. split.
  - apply Forall_forall. intros y Hy a b Ha Hb.
    apply list_elem_of_fmap in Hy as (e' & -> & _).
    cbn in Ha, Hb. injection Ha as <-. injection Hb as <-. lia.
  - eapply Forall_impl; [exact Hfrom |].
    intros y (k & Hk & Hjk) a b Ha Hb. cbn in Ha. injection Ha as <-.
    rewrite Hk in Hb. injection Hb as <-. exact Hjk.
Qed.

Lemma for_pins_order ps : forall j w st,
  StronglySorted not_after (for_pins j ps w st).2
  /\ Forall (fun y => exists k, y.1 = Some k
                                /\ (j <= k < j + length ps)%nat)
            (for_pins j ps w st).2.
Proof.
  induction ps as [|q ps IH]; intros j w st.
  - split; constructor.
  - cbn [for_pins].
    destruct (service_pin j q (lines w j) st) as [st1 es].
    specialize (IH (S j) w st1).
    destruct (for_pins (S j) ps w st1) as [st2 t]. cbn [snd length] in *.
    destruct IH as [Hsorted Hrange]. split.
    + apply at_line_before; [exact Hsorted |].
      eapply Forall_impl; [exact Hrange |].
      intros y (k & Hk & Hjk). exists k. split; [exact Hk | lia].
    + apply Forall_app. split.
      * apply Forall_forall. intros y Hy.
        apply list_elem_of_fmap in Hy as (e' & -> & _).
        exists j. split; [reflexivity | lia].
      * eapply Forall_impl; [exact Hrange |].
        intros y (k & Hk & Hjk). exists k. split; [exact Hk | lia].
Qed.

Lemma sorted_split (t1 : trace) : forall t x t2 y t3,
  StronglySorted not_after t ->
  t = t1 ++ x :: t2 ++ y :: t3 -> not_after x y.
Proof.
  induction t1 as [|z t1 IH]; intros t x t2 y t3 Hsorted ->.
  - cbn in Hsorted. apply StronglySorted_inv in Hsorted as [_ Hall].
    rewrite Forall_forall in Hall. apply Hall.
    apply elem_of_app. right. left.
  - cbn in Hsorted. apply StronglySorted_inv in Hsorted as [Hsorted _].
    eapply IH; [exact Hsorted | reflexivity].
Qed.

Lemma service_pin_raw i p li st b :
  edge p <> EDGE_SWITCH -> ready_with b li ->
  service_pin i p li st
  = (with_valbuf st (read_buf (valbuf st) 2 (read_bytes li)),
     received p :: run_script (world li) (pin p)
                     (if Ascii.eqb b "1" then 1 else 0)).
Proof.
  intros Hedge [Hready [rest Hread]]. unfold service_pin.
  destruct (Z.eqb_spec (Z.land (revents li) POLLPRI) 0) as [H0 | _];
    [contradiction |].
  destruct (Z.eqb_spec (edge p) EDGE_SWITCH) as [He | _]; [contradiction |].
  rewrite Hread, char_at_read_buf. reflexivity.
Qed.

(** With a byte read, what the loop body does for entry [i] is decided
    by that entry of the two arrays. *)
Lemma service_pin_events_view i p li a b c :
  same_line i a b -> ready_with c li ->
  (service_pin i p li a).2 = (service_pin i p li b).2.
Proof.
  intros (Hs & Hd & _ & _) Hrw.
  destruct (Z.eq_dec (edge p) EDGE_SWITCH) as [Hedge | Hedge].
  - rewrite (service_pin_switch i p li a c Hedge Hrw),
            (service_pin_switch i p li b c Hedge Hrw).
    rewrite Hs, Hd. repeat break_if; reflexivity.
  - rewrite (service_pin_raw i p li a c Hedge Hrw),
            (service_pin_raw i p li b c Hedge Hrw).
    reflexivity.
Qed.

(** A ready line has its event logged first. *)
Lemma service_pin_ready i p li st :
  Z.land (revents li) POLLPRI <> 0 ->
  exists rest, (service_pin i p li st).2 = received p :: rest.
Proof.
  intros Hready. unfold service_pin.
  destruct (Z.eqb_spec (Z.land (revents li) POLLPRI) 0) as [H0 | _];
    [contradiction |].
  repeat break_if; cbn [snd]; eauto.
Qed.

Lemma for_pins_app ps1 : forall ps2 j w st,
  for_pins j (ps1 ++ ps2) w st =
    let '(s1, t1) := for_pins j ps1 w st in
    let '(s2, t2) := for_pins (j + length ps1) ps2 w s1 in
    (s2, t1 ++ t2).
Proof.
  induction ps1 as [|q ps1 IH]; intros ps2 j w st.
  - cbn [app for_pins length]. rewrite Nat.add_0_r.
    destruct (for_pins j ps2 w st); reflexivity.
  - cbn [app for_pins length].
    destruct (service_pin j q (lines w j) st) as [st1 es].
    rewrite IH. destruct (for_pins (S j) ps1 w st1) as [s1 t1].
    replace (S j + length ps1)%nat with (j + S (length ps1))%nat by lia.
    destruct (for_pins (j + S (length ps1)) ps2 w s1) as [s2 t2].
    rewrite app_assoc. reflexivity.
Qed.

(** The trace of the loop, cut at entry [k]. *)
Lemma for_pins_entry ps k p w st :
  ps !! k = Some p ->
  exists after,
    (for_pins 0 ps w st).2 =
      (for_pins 0 (take k ps) w st).2
      ++ at_line k (service_pin k p (lines w k)
                      (for_pins 0 (take k ps) w st).1).2
      ++ after.
Proof.
  intros Hk.
  assert (Hlen : length (take k ps) = k).
  { apply length_take_le. apply lookup_lt_Some in Hk. lia. }
  pose proof (for_pins_app (take k ps) (p :: drop (S k) ps) 0 w st) as Happ.
  rewrite (take_drop_middle ps k p Hk) in Happ. rewrite Happ.
  destruct (for_pins 0 (take k ps) w st) as [s1 t1].
  rewrite Hlen. cbn [Nat.add for_pins fst snd].
  destruct (service_pin k p (lines w k) s1) as [s2 es].
  destruct (for_pins (S k) (drop (S k) ps) w s2) as [s3 t3].
  cbn [fst snd]. eauto.
Qed.

(** The trace of the loop is what its body does for each entry, one
    entry after the other. *)
Lemma for_pins_concat w ps : forall j st,
  (for_pins j ps w st).2 =
    concat (imap (fun k p =>
                    at_line (j + k)
                      (service_pin (j + k) p (lines w (j + k))
                         (for_pins j (take k ps) w st).1).2) ps).
Proof.
  induction ps as [|q ps IH]; intros j st; [reflexivity |].
  rewrite imap_cons. cbn [concat take for_pins fst].
  rewrite Nat.add_0_r.
  destruct (service_pin j q (lines w j) st) as [st1 es] eqn:Hq.
  specialize (IH (S j) st1).
  destruct (for_pins (S j) ps w st1) as [st2 t] eqn:Hrest.
  cbn [fst snd] in *. f_equal. rewrite IH. f_equal.
  apply imap_ext. intros k p _. unfold compose.
  cbn [take for_pins]. rewrite Hq.
  destruct (for_pins (S j) (take k ps) w st1) as [s' t'].
  cbn [fst]. rewrite Nat.add_succ_r. reflexivity.
Qed.

(** The entries from [j + length ps] on are not touched by the loop
    over [ps] from [j]. *)
Lemma for_pins_beyond i ps : forall j w st,
  (j + length ps <= i)%nat -> same_line i st (for_pins j ps w st).1.
Proof.
  induction ps as [|q ps IH]; intros j w st Hle; cbn [for_pins length] in *.
  - apply same_line_refl.
  - pose proof (service_pin_other i j q (lines w j) st) as Hoth.
    destruct (service_pin j q (lines w j) st) as [st1 es].
    specialize (IH (S j) w st1).
    destruct (for_pins (S j) ps w st1) as [st2 t]. cbn [fst] in *.
    eapply same_line_trans; [apply Hoth; lia | apply IH; lia].
Qed.

Lemma state_before_same_line w st i :
  same_line i st (state_before w st i).
Proof.
  unfold state_before. apply for_pins_beyond.
  rewrite length_take. lia.
Qed.

Lemma wake_trace w st t st' :
  wake w st = (t, Running st') -> t = (for_pins 0 pins w st).2.
Proof.
  unfold wake. destruct (poll_ret w =? -1); [discriminate |].
  destruct (for_pins 0 pins w st) as [st2 t2].
  intros H. injection H as <- _. reflexivity.
Qed.

(** The trace of a wake, cut at entry [i]. *)
Lemma wake_entry w st t st' i p :
  wake w st = (t, Running st') -> pins !! i = Some p ->
  exists after,
    t = (for_pins 0 (take i pins) w st).2
        ++ at_line i (served w st i p) ++ after.
Proof.
  intros Hwake Hi. rewrite (wake_trace w st t st' Hwake).
  exact (for_pins_entry pins i p w st Hi).
Qed.

(** The trace of a wake, cut at the children of entries [i < j]. *)
Lemma wake_two_children w st t st' i j p q path_i argv_i path_j argv_j :
  wake w st = (t, Running st') ->
  (i < j)%nat -> pins !! i = Some p -> pins !! j = Some q ->
  Spawn path_i argv_i ∈ served w st i p ->
  Spawn path_j argv_j ∈ served w st j q ->
  exists status t1 t2 t3,
    t = t1 ++ (Some i, Spawn path_i argv_i) :: (Some i, Wait status)
           :: t2 ++ (Some j, Spawn path_j argv_j) :: t3.
Proof.
  intros Hwake Hij Hi Hj Hin_i Hin_j.
  destruct (wake_entry w st t st' j q Hwake Hj) as (after_j & Ht).
  assert (Hi' : take j pins !! i = Some p).
  { rewrite lookup_take_lt by exact Hij. exact Hi. }
  destruct (for_pins_entry (take j pins) i p w st Hi') as (after_i & Hbefore).
  rewrite take_take, Nat.min_l in Hbefore by lia.
  fold (state_before w st i) in Hbefore. fold (served w st i p) in Hbefore.
  rewrite Hbefore in Ht. clear Hbefore.
  pose proof (service_pin_spawns i p (lines w i) (state_before w st i) Hi)
    as Hwaited.
  fold (served w st i p) in Hwaited.
  apply list_elem_of_split in Hin_i as (a1 & a2 & Hseg_i).
  apply list_elem_of_split in Hin_j as (b1 & b2 & Hseg_j).
  rewrite Hseg_i in Hwaited, Ht. rewrite Hseg_j in Ht. clear Hseg_i Hseg_j.
  unfold at_line in Hwaited, Ht.
  rewrite map_app in Hwaited. rewrite !map_app in Ht.
  cbn [map] in Hwaited, Ht.
  destruct (spawns_waited_split handler_of_table _ _ _ _ _ _ Hwaited eq_refl)
    as (_ & status & rest & Hrest).
  rewrite Hrest in Ht.
  exists status, ((for_pins 0 (take i pins) w st).2
                  ++ map (fun e => (Some i, e)) a1),
    (rest ++ after_i ++ map (fun e => (Some j, e)) b1),
    (map (fun e => (Some j, e)) b2 ++ after_j).
  rewrite Ht. repeat (rewrite <- app_assoc || rewrite <- app_comm_cons).
  reflexivity.
Qed.

(** C8. The trace of one wake is what the loop body does for entry 0
    of the table, then for entry 1, and so on to the last: every entry
    has its turn, the ready ones are served, and the order is that of
    the table whatever happened first on the wires.  When its turn
    comes an entry of the two arrays is as it was when [poll] returned.
    A child is followed at once by the return of its [wait], so
    between the children of two lines the earlier line's [wait] has
    returned. *)
Theorem wake_serves_lines_in_table_order w st t st' :
  wake w st = (t, Running st') ->
  t = concat (imap (fun i p => at_line i (served w st i p)) pins)
  /\ (forall i p, pins !! i = Some p ->
        same_line i st (state_before w st i)
        /\ exists before after,
             t = before ++ at_line i (served w st i p) ++ after)
  /\ (forall i p, pins !! i = Some p ->
        Z.land (revents (lines w i)) POLLPRI <> 0 ->
        (exists rest, served w st i p = received p :: rest)
        /\ (Some i, received p) ∈ t)
  /\ (forall i p b, pins !! i = Some p -> ready_with b (lines w i) ->
        served w st i p = (service_pin i p (lines w i) st).2)
  /\ (forall i p b, pins !! i = Some p -> edge p <> EDGE_SWITCH ->
        ready_with b (lines w i) ->
        served w st i p
        = received p :: run_script (world (lines w i)) (pin p)
                          (if Ascii.eqb b "1" then 1 else 0))
  /\ (forall i j p q path_i argv_i path_j argv_j,
        (i < j)%nat -> pins !! i = Some p -> pins !! j = Some q ->
        Spawn path_i argv_i ∈ served w st i p ->
        Spawn path_j argv_j ∈ served w st j q ->
        exists status t1 t2 t3,
          t = t1 ++ (Some i, Spawn path_i argv_i) :: (Some i, Wait status)
                 :: t2 ++ (Some j, Spawn path_j argv_j) :: t3)
  /\ (forall x, x ∈ t -> exists i, x.1 = Some i /\ (i < length pins)%nat)
  /\ (forall t1 a e1 t2 b e2 t3,
        t = t1 ++ (Some a, e1) :: t2 ++ (Some b, e2) :: t3 ->
        (a <= b)%nat)
  /\ (forall t1 a path argv t2,
        t = t1 ++ (Some a, Spawn path argv) :: t2 ->
        exists status t3, t2 = (Some a, Wait status) :: t3)
  /\ (forall t1 a path_a argv_a t2 b path_b argv_b t3,
        t = t1 ++ (Some a, Spawn path_a argv_a)
               :: t2 ++ (Some b, Spawn path_b argv_b) :: t3 ->
        (a <= b)%nat
        /\ exists status t2', t2 = (Some a, Wait status) :: t2').
Proof.
  intros Hwake.
  pose proof (wake_spawns w st) as Hspawns. rewrite Hwake in Hspawns.
  cbn [fst] in Hspawns.
  assert (Horder : StronglySorted not_after t
                   /\ Forall (fun y => exists k, y.1 = Some k
                                /\ (0 <= k < 0 + length pins)%nat) t).
  { unfold wake in Hwake.
    destruct (poll_ret w =? -1); [discriminate |].
    pose proof (for_pins_order pins 0 w st) as H.
    destruct (for_pins 0 pins w st) as [st2 t'].
    injection Hwake as <- _. exact H. }
  destruct Horder as [Hsorted Hrange].
  assert (Hasc : forall t1 a e1 t2 b e2 t3,
            t = t1 ++ (Some a, e1) :: t2 ++ (Some b, e2) :: t3 ->
            (a <= b)%nat).
  { intros t1 a e1 t2 b e2 t3 Ht.
    exact (sorted_split t1 t _ t2 _ t3 Hsorted Ht a b eq_refl eq_refl). }
  assert (Hwaited : forall t1 a path argv t2,
            t = t1 ++ (Some a, Spawn path argv) :: t2 ->
            exists status t3, t2 = (Some a, Wait status) :: t3).
  { intros t1 a path argv t2 Ht.
    exact (proj2 (spawns_waited_split handler_of_table t1 t _ path argv t2
                    Hspawns Ht)). }
  split.
  { rewrite (wake_trace w st t st' Hwake).
    exact (for_pins_concat w pins 0 st). }
  split.
  { intros i p Hi. split; [apply state_before_same_line |].
    destruct (wake_entry w st t st' i p Hwake Hi) as (after & Ht).
    eauto. }
  split.
  { intros i p Hi Hready.
    destruct (service_pin_ready i p (lines w i) (state_before w st i) Hready)
      as (rest & Hrest).
    split; [exists rest; exact Hrest |].
    destruct (wake_entry w st t st' i p Hwake Hi) as (after & Ht).
    rewrite Ht. unfold served. rewrite Hrest.
    apply elem_of_app. right. apply elem_of_app. left. left. }
  split.
  { intros i p b Hi Hrw. unfold served.
    apply (service_pin_events_view i p (lines w i) _ _ b); [| exact Hrw].
    apply same_line_sym, state_before_same_line. }
  split.
  { intros i p b Hi Hedge Hrw. unfold served.
    rewrite (service_pin_raw i p (lines w i) _ b Hedge Hrw). reflexivity. }
  split.
  { intros i j p q path_i argv_i path_j argv_j.
    apply (wake_two_children w st t st'). exact Hwake. }
  split; [| split; [exact Hasc | split; [exact Hwaited |]]].
  - intros x Hx. rewrite Forall_forall in Hrange.
    destruct (Hrange x Hx) as (k & Hk & Hlt). exists k.
    split; [exact Hk | lia].
  - intros t1 a path_a argv_a t2 b path_b argv_b t3 Ht.
    split; [exact (Hasc _ _ _ _ _ _ _ Ht) |].
    destruct (Hwaited _ _ _ _ _ Ht) as (status & t3' & Heq).
    destruct t2 as [|x t2]; [discriminate |].
    injection Heq as -> _. eauto.
Qed.

(** ** Further properties of the loop *)

(** Running the loop for the wakes [ws1 ++ ws2] is running it for
    [ws1] and then, from the state reached, for [ws2]. *)
Lemma wait_loop_app ws1 ws2 st :
  wait_loop (ws1 ++ ws2) st =
    match wait_loop ws1 st with
    | (t1, Running st1) =>
        let '(t2, out) := wait_loop ws2 st1 in (t1 ++ t2, out)
    | (t1, Exited code) => (t1, Exited code)
    end.
Proof.
  revert st. induction ws1 as [|w ws1 IH]; intros st.
  - cbn [app wait_loop]. destruct (wait_loop ws2 st). reflexivity.
  - cbn [app wait_loop].
    destruct (wake w st) as [t [st'|code]]; [| reflexivity].
    rewrite IH.
    destruct (wait_loop ws1 st') as [t1 [st1|code]]; [| reflexivity].
    destruct (wait_loop ws2 st1) as [t2 out].
    rewrite app_assoc. reflexivity.
Qed.

Lemma for_pins_idle ps : forall j w st,
  (forall i, Z.land (revents (lines w i)) POLLPRI = 0) ->
  for_pins j ps w st = (st, []).
Proof.
  induction ps as [|q ps IH]; intros j w st Hidle; [reflexivity |].
  cbn [for_pins]. rewrite service_pin_idle by apply Hidle.
  rewrite IH by exact Hidle. reflexivity.
Qed.

(** X1. A wake in which no pin has [POLLPRI] set, whatever other bits
    [poll] reports ([POLLERR], [POLLNVAL], ...), reads nothing, runs
    nothing and leaves every local as it was. *)
Theorem wake_without_POLLPRI w st :
  poll_ret w <> -1 ->
  (forall i, Z.land (revents (lines w i)) POLLPRI = 0) ->
  wake w st = ([], Running st).
Proof.
  intros Hok Hidle. unfold wake.
  destruct (Z.eqb_spec (poll_ret w) (-1)) as [Hfail | _]; [contradiction |].
  rewrite for_pins_idle by exact Hidle. reflexivity.
Qed.

(** *** The shape of the locals *)

Lemma read_buf_shape buf data :
  length buf = 3%nat ->
  length (read_buf buf 2 data) = 3%nat
  /\ char_at (read_buf buf 2 data) 2 = char_at buf 2.
Proof.
  intros Hlen.
  destruct buf as [|x [|y [|z [|u buf]]]]; try discriminate.
  destruct data as [|a [|b data]]; split; reflexivity.
Qed.

Lemma service_pin_valbuf i p li st :
  valbuf (service_pin i p li st).1 =
    if Z.land (revents li) POLLPRI =? 0 then valbuf st
    else read_buf (valbuf st) 2 (read_bytes li).
Proof. unfold service_pin. repeat break_if; reflexivity. Qed.

Lemma service_pin_valbuf_shape i p li st :
  length (valbuf st) = 3%nat ->
  length (valbuf (service_pin i p li st).1) = 3%nat
  /\ char_at (valbuf (service_pin i p li st).1) 2 = char_at (valbuf st) 2.
Proof.
  intros Hlen. rewrite service_pin_valbuf.
  destruct (Z.land (revents li) POLLPRI =? 0); [auto |].
  apply read_buf_shape, Hlen.
Qed.

Lemma for_pins_shape ps : forall j w st,
  length (valbuf st) = 3%nat ->
  length (valbuf (for_pins j ps w st).1) = 3%nat
  /\ char_at (valbuf (for_pins j ps w st).1) 2 = char_at (valbuf st) 2
  /\ length (switch_state (for_pins j ps w st).1) = length (switch_state st)
  /\ length (down_at (for_pins j ps w st).1) = length (down_at st).
Proof.
  induction ps as [|q ps IH]; intros j w st Hlen; [cbn; auto |].
  cbn [for_pins].
  pose proof (service_pin_valbuf_shape j q (lines w j) st Hlen) as [H1 H2].
  pose proof (service_pin_lengths j q (lines w j) st) as [H3 H4].
  destruct (service_pin j q (lines w j) st) as [st1 es].
  specialize (IH (S j) w st1 H1).
  destruct (for_pins (S j) ps w st1) as [st2 t]. cbn [fst] in *.
  destruct IH as (I1 & I2 & I3 & I4).
  repeat split; congruence.
Qed.

Lemma open_pins_shape boot ps : forall j vb,
  length vb = 3%nat ->
  length (open_pins j ps boot vb).2 = 3%nat
  /\ char_at (open_pins j ps boot vb).2 2 = char_at vb 2
  /\ Forall (fun e => events e = POLLPRI) (open_pins j ps boot vb).1.
Proof.
  induction ps as [|q ps IH]; intros j vb Hlen; [cbn; auto |].
  cbn [open_pins].
  destruct (read_buf_shape vb (initial_read (boot j)) Hlen) as [H1 H2].
  specialize (IH (S j) (read_buf vb 2 (initial_read (boot j))) H1).
  destruct (open_pins (S j) ps boot (read_buf vb 2 (initial_read (boot j))))
    as [fds vb2].
  cbn [fst snd] in *. destruct IH as (I1 & I2 & I3).
  repeat split; try congruence. constructor; [reflexivity | exact I3].
Qed.

Lemma startup_well_shaped mem boot : well_shaped (startup mem boot).
Proof.
  destruct (startup_arrays mem boot) as [Hs Hd].
  pose proof (startup_fdlist mem boot) as Hf.
  pose proof (open_pins_shape boot pins 0
                [stack_valbuf0 mem; stack_valbuf1 mem; Ascii.zero] eq_refl)
    as (H1 & H2 & H3).
  pose proof (open_pins_length boot pins 0
                [stack_valbuf0 mem; stack_valbuf1 mem; Ascii.zero]) as H4.
  assert (Hv : valbuf (startup mem boot)
               = (open_pins 0 pins boot
                    [stack_valbuf0 mem; stack_valbuf1 mem; Ascii.zero]).2).
  { unfold startup.
    destruct (open_pins 0 pins boot
                [stack_valbuf0 mem; stack_valbuf1 mem; Ascii.zero]).
    reflexivity. }
  unfold well_shaped. rewrite Hv, Hs, Hd, Hf.
  rewrite length_replicate, length_map, length_seq.
  repeat split; assumption.
Qed.

Lemma wake_well_shaped w st t st' :
  well_shaped st -> wake w st = (t, Running st') ->
  well_shaped st' /\ fdlist st' = fdlist st.
Proof.
  intros (H1 & H2 & H3 & H4 & H5 & H6) Hwake. unfold wake in Hwake.
  destruct (poll_ret w =? -1); [discriminate |].
  pose proof (for_pins_shape pins 0 w st H1) as (I1 & I2 & I3 & I4).
  pose proof (for_pins_fdlist pins 0 w st) as I5.
  destruct (for_pins 0 pins w st) as [st2 t2].
  injection Hwake as _ <-. cbn [fst] in *.
  unfold well_shaped. rewrite I5.
  repeat split; congruence.
Qed.

Lemma wait_loop_well_shaped ws : forall st st',
  well_shaped st -> (wait_loop ws st).2 = Running st' ->
  well_shaped st' /\ fdlist st' = fdlist st.
Proof.
  induction ws as [|w ws IH]; intros st st' Hshape Hrun.
  - injection Hrun as <-. auto.
  - cbn [wait_loop] in Hrun.
    destruct (wake w st) as [t [st1|code]] eqn:Hwake; [| discriminate].
    destruct (wake_well_shaped w st t st1 Hshape Hwake) as [Hshape1 Hfd1].
    specialize (IH st1 st' Hshape1).
    destruct (wait_loop ws st1) as [t' out]. cbn [snd] in *.
    destruct (IH Hrun) as [Hshape' Hfd']. split; [exact Hshape' | congruence].
Qed.

(** X2. Whenever the loop is back at [poll], after any number of wakes
    and whatever was read: [valbuf] still has its three bytes with the
    NUL that line 124 put at the end, both debounce arrays and the poll
    set have one entry per pin, and the poll set is the one start-up
    built, every entry asking for [POLLPRI]; no descriptor is ever
    replaced or dropped. *)
Theorem locals_keep_their_shape mem boot ws st :
  (watch_pins mem boot ws).2 = Running st ->
  length (valbuf st) = 3%nat
  /\ char_at (valbuf st) 2 = Ascii.zero
  /\ length (switch_state st) = length pins
  /\ length (down_at st) = length pins
  /\ fdlist st = fdlist (startup mem boot)
  /\ length (fdlist st) = length pins
  /\ Forall (fun e => events e = POLLPRI) (fdlist st).
Proof.
  intros Hrun. unfold watch_pins in Hrun.
  pose proof (wait_loop_well_shaped ws (startup mem boot) st
                (startup_well_shaped mem boot)) as Hloop.
  destruct (wait_loop ws (startup mem boot)) as [t out]. cbn [snd] in *.
  destruct (Hloop Hrun) as [(H1 & H2 & H3 & H4 & H5 & H6) Hfd].
  repeat split; assumption.
Qed.

(** *** What is fired, and how often *)

Lemma report_status_logs pin status e :
  e ∈ report_status pin status -> exists msg, e = Log LOG_WARN msg.
Proof.
  unfold report_status. repeat break_if; intros Hin;
    try (apply list_elem_of_singleton in Hin; eauto);
    inversion Hin.
Qed.

Lemma run_script_marker o a v pin value :
  Run_script a v ∈ run_script o pin value -> a = pin /\ v = value.
Proof.
  unfold run_script. intros Hin.
  apply elem_of_cons in Hin as [[= -> ->] | Hin]; [auto |].
  exfalso.
  destruct (negb (is_file o (script_path_of pin))).
  - apply list_elem_of_singleton in Hin. discriminate.
  - apply elem_of_cons in Hin as [Heq | Hin]; [discriminate |].
    apply elem_of_app in Hin as [Hin | Hin].
    + destruct (fork_child o); [| inversion Hin].
      apply list_elem_of_singleton in Hin. discriminate.
    + apply elem_of_cons in Hin as [Heq | Hin]; [discriminate |].
      apply report_status_logs in Hin as [msg Hmsg]. discriminate.
Qed.

Lemma service_pin_marker i p li st a v :
  Run_script a v ∈ (service_pin i p li st).2 ->
  a = pin p /\ (v = 0 \/ v = 1).
Proof.
  unfold service_pin.
  repeat break_if; cbn [snd]; intros Hin;
    try (inversion Hin; fail);
    try (apply list_elem_of_singleton in Hin; discriminate);
    (apply elem_of_cons in Hin as [Heq | Hin]; [discriminate |]);
    apply run_script_marker in Hin as [-> ->]; auto.
Qed.

Lemma for_pins_events ps : forall j w st x,
  x ∈ (for_pins j ps w st).2 ->
  exists k p st0,
    ps !! k = Some p /\ x.1 = Some (j + k)%nat
    /\ x.2 ∈ (service_pin (j + k) p (lines w (j + k)%nat) st0).2.
Proof.
  induction ps as [|q ps IH]; intros j w st x Hin; [inversion Hin |].
  cbn [for_pins] in Hin.
  destruct (service_pin j q (lines w j) st) as [st1 es] eqn:Hsvc.
  specialize (IH (S j) w st1 x).
  destruct (for_pins (S j) ps w st1) as [st2 t]. cbn [snd] in *.
  apply elem_of_app in Hin as [Hin | Hin].
  - apply list_elem_of_fmap in Hin as (e & -> & He).
    exists 0%nat, q, st. rewrite Nat.add_0_r, Hsvc. auto.
  - destruct (IH Hin) as (k & p & st0 & Hk & Htag & Hev).
    exists (S k), p, st0.
    replace (j + S k)%nat with (S j + k)%nat by lia. auto.
Qed.

Lemma wait_loop_events ws : forall st x,
  x ∈ (wait_loop ws st).1 ->
  (exists errno, x = (None, Perror "poll" errno))
  \/ exists i p li st0,
       pins !! i = Some p /\ x.1 = Some i
       /\ x.2 ∈ (service_pin i p li st0).2.
Proof.
  induction ws as [|w ws IH]; intros st x Hin; [inversion Hin |].
  cbn [wait_loop] in Hin. unfold wake in Hin.
  destruct (poll_ret w =? -1).
  - cbn in Hin. apply list_elem_of_singleton in Hin. left. eauto.
  - pose proof (for_pins_events pins 0 w st x) as Hev.
    destruct (for_pins 0 pins w st) as [st1 t].
    specialize (IH st1 x).
    destruct (wait_loop ws st1) as [t' out]. cbn [fst snd] in *.
    apply elem_of_app in Hin as [Hin | Hin]; [| auto].
    destruct (Hev Hin) as (k & p & st0 & Hk & Htag & He).
    right. exists k, p, (lines w k), st0. auto.
Qed.

(** X3. Every call of [run_script] that [watch_pins] ever makes is for
    the pin of an entry of the table and passes 0 or 1, so the decimal
    form of the value is one character and fits in [value_str[2]]. *)
Theorem every_call_is_for_a_table_pin mem boot ws tag a v :
  (tag, Run_script a v) ∈ (watch_pins mem boot ws).1 ->
  exists i p,
    tag = Some i /\ pins !! i = Some p /\ a = pin p
    /\ (v = 0 \/ v = 1)
    /\ String.length (fmt_d v) = 1%nat.
Proof.
  intros Hin. unfold watch_pins in Hin.
  pose proof (wait_loop_events ws (startup mem boot) (tag, Run_script a v))
    as Hev.
  destruct (wait_loop ws (startup mem boot)) as [t out]. cbn [fst] in *.
  apply elem_of_cons in Hin as [Heq | Hin]; [discriminate |].
  destruct (Hev Hin) as [[errno Heq] | (i & p & li & st0 & Hp & Htag & He)];
    [discriminate |].
  cbn [fst snd] in *.
  apply service_pin_marker in He as [-> Hv].
  exists i, p. repeat split; try assumption.
  destruct Hv as [-> | ->]; reflexivity.
Qed.

Lemma fired_none i t :
  Forall (fun y => forall k, y.1 = Some k -> k <> i) t -> fired i t = [].
Proof.
  induction 1 as [|[[k|] e] t Hy _ IH]; [reflexivity | |];
    destruct e; cbn [fired]; try exact IH.
  specialize (Hy k eq_refl). apply Nat.eqb_neq in Hy. rewrite Hy. exact IH.
Qed.

Lemma service_pin_calls i p li st :
  calls (service_pin i p li st).2 = []
  \/ exists v, calls (service_pin i p li st).2 = [(pin p, v)].
Proof.
  unfold service_pin.
  repeat break_if; cbn [snd calls received]; rewrite ?calls_run_script;
    eauto.
Qed.

(** X4. In one wake [run_script] is called at most once for each entry
    of the table, however often the line changed before [poll]
    returned. *)
Theorem one_call_per_line_and_wake i w st :
  (length (fired i (wake w st).1) <= 1)%nat.
Proof.
  destruct (Z.eq_dec (poll_ret w) (-1)) as [Hfail | Hok].
  { rewrite (wake_failed w st Hfail). cbn. lia. }
  destruct (pins !! i) as [p|] eqn:Hp.
  - destruct (wake_at_line i p w st Hp Hok)
      as (st_mid & t & st' & Hwake & _ & _ & Hfired).
    rewrite Hwake. cbn [fst]. rewrite Hfired.
    destruct (service_pin_calls i p (lines w i) st_mid) as [-> | [v ->]];
      cbn; lia.
  - apply lookup_ge_None in Hp.
    unfold wake. destruct (poll_ret w =? -1); [cbn; lia |].
    pose proof (for_pins_order pins 0 w st) as [_ Hrange].
    destruct (for_pins 0 pins w st) as [st' t]. cbn [fst snd] in *.
    rewrite fired_none; [cbn; lia |].
    eapply Forall_impl; [exact Hrange |].
    intros y (k & Hk & Hlt) k' Hk'. rewrite Hk in Hk'.
    injection Hk' as <-. lia.
Qed.

(** *** Lines do not disturb each other *)

Lemma same_line_confirm i a b v now vb1 vb2 :
  same_line i a b -> same_line i (confirm a i v now vb1) (confirm b i v now vb2).
Proof.
  intros (Hs & Hd & Hls & Hld). unfold same_line, confirm.
  cbn [switch_state down_at].
  rewrite !length_insert, !list_lookup_total_insert, Hls, Hld, Hs, Hd.
  auto.
Qed.

Lemma service_pin_view i p li a b :
  same_line i a b ->
  (Z.land (revents li) POLLPRI <> 0 -> read_bytes li <> []) ->
  calls (service_pin i p li a).2 = calls (service_pin i p li b).2
  /\ same_line i (service_pin i p li a).1 (service_pin i p li b).1.
Proof.
  intros Hsame Hread.
  destruct (Z.eq_dec (Z.land (revents li) POLLPRI) 0) as [Hidle | Hready].
  { rewrite !service_pin_idle by assumption. auto. }
  destruct (read_bytes li) as [|c rest] eqn:Hbytes;
    [exfalso; now apply Hread |].
  assert (Hrw : ready_with c li) by (split; eauto).
  destruct (Z.eq_dec (edge p) EDGE_SWITCH) as [Hedge | Hedge].
  - rewrite (service_pin_switch i p li a c Hedge Hrw),
            (service_pin_switch i p li b c Hedge Hrw).
    destruct Hsame as (Hs & Hd & Hls & Hld). rewrite Hs, Hd.
    repeat break_if; cbn [fst snd calls received];
      rewrite ?calls_run_script;
      (split; [reflexivity |]);
      try (apply same_line_confirm; unfold same_line; auto);
      unfold same_line; cbn; auto.
  - rewrite (service_pin_raw i p li a c Hedge Hrw),
            (service_pin_raw i p li b c Hedge Hrw).
    split; [reflexivity |].
    destruct Hsame as (Hs & Hd & Hls & Hld).
    unfold same_line. cbn. auto.
Qed.

(** X5. What is fired for a line depends on what happens on that line
    only.  Two runs whose wakes give the line the same readiness, bytes,
    clock and scripts, and fail [poll] at the same places, fire the same
    values for it, whatever the other lines do; this is for reads that
    deliver at least one byte. *)
Theorem lines_do_not_interfere i p ws1 ws2 :
  pins !! i = Some p ->
  Forall2 (fun w1 w2 =>
             lines w1 i = lines w2 i
             /\ (poll_ret w1 = -1 <-> poll_ret w2 = -1)
             /\ (Z.land (revents (lines w1 i)) POLLPRI <> 0 ->
                 read_bytes (lines w1 i) <> [])) ws1 ws2 ->
  forall st1 st2, same_line i st1 st2 ->
  fired i (wait_loop ws1 st1).1 = fired i (wait_loop ws2 st2).1.
Proof.
  intros Hp Hall.
  induction Hall as [|w1 w2 ws1 ws2 (Hline & Hpoll & Hread) _ IH];
    intros st1 st2 Hsame; [reflexivity |].
  cbn [wait_loop].
  destruct (Z.eq_dec (poll_ret w1) (-1)) as [Hfail | Hok].
  { rewrite (wake_failed w1 st1 Hfail),
            (wake_failed w2 st2 (proj1 Hpoll Hfail)).
    reflexivity. }
  assert (Hok2 : poll_ret w2 <> -1) by tauto.
  destruct (wake_at_line i p w1 st1 Hp Hok)
    as (m1 & t1 & st1' & Hw1 & Hm1 & Hs1 & Hf1).
  destruct (wake_at_line i p w2 st2 Hp Hok2)
    as (m2 & t2 & st2' & Hw2 & Hm2 & Hs2 & Hf2).
  rewrite Hw1, Hw2. rewrite <- Hline in Hs2, Hf2.
  assert (Hmid : same_line i m1 m2).
  { eapply same_line_trans; [apply same_line_sym, Hm1 |].
    eapply same_line_trans; [exact Hsame | exact Hm2]. }
  destruct (service_pin_view i p (lines w1 i) m1 m2 Hmid Hread)
    as [Hcalls Hnext].
  assert (Hsame' : same_line i st1' st2').
  { eapply same_line_trans; [apply same_line_sym, Hs1 |].
    eapply same_line_trans; [exact Hnext | exact Hs2]. }
  specialize (IH st1' st2' Hsame').
  destruct (wait_loop ws1 st1') as [t1' out1].
  destruct (wait_loop ws2 st2') as [t2' out2].
  cbn [fst] in *. rewrite !fired_app, Hf1, Hf2, Hcalls, IH. reflexivity.
Qed.

Lemma service_pin_raw_keeps i p li st :
  edge p <> EDGE_SWITCH -> same_line i st (service_pin i p li st).1.
Proof.
  intros Hedge. unfold service_pin.
  destruct (Z.land (revents li) POLLPRI =? 0); [apply same_line_refl |].
  destruct (Z.eqb_spec (edge p) EDGE_SWITCH) as [He | _]; [contradiction |].
  unfold same_line. cbn. auto.
Qed.

(** X6. A line that is not in `switch' mode never uses the debounce
    arrays: whenever the loop is back at [poll] its confirmed state is
    still the 0 of [memset] and its time stamp still what the stack
    held. *)
Theorem raw_line_never_touches_debounce_arrays i p mem boot ws st :
  pins !! i = Some p -> edge p <> EDGE_SWITCH ->
  (watch_pins mem boot ws).2 = Running st ->
  switch_state st !!! i = 0 /\ down_at st !!! i = stack_down_at mem i.
Proof.
  intros Hp Hedge Hrun.
  destruct (startup_line_entries i p mem boot Hp) as (Hs0 & Hd0 & _ & _).
  assert (Hloop : forall ws st0 st',
    (wait_loop ws st0).2 = Running st' -> same_line i st0 st').
  { clear ws st Hrun. induction ws as [|w ws IH]; intros st0 st' Hr.
    - injection Hr as <-. apply same_line_refl.
    - cbn [wait_loop] in Hr.
      destruct (Z.eq_dec (poll_ret w) (-1)) as [Hfail | Hok].
      { rewrite (wake_failed w st0 Hfail) in Hr. discriminate. }
      destruct (wake_at_line i p w st0 Hp Hok)
        as (m & t & st1 & Hw & Hm & Hs & _).
      rewrite Hw in Hr. specialize (IH st1 st').
      destruct (wait_loop ws st1) as [t' out]. cbn [snd] in *.
      eapply same_line_trans; [exact Hm |].
      eapply same_line_trans;
        [apply (service_pin_raw_keeps i p (lines w i) m Hedge) |].
      eapply same_line_trans; [exact Hs | apply IH, Hr]. }
  unfold watch_pins in Hrun.
  specialize (Hloop ws (startup mem boot) st).
  destruct (wait_loop ws (startup mem boot)) as [t out]. cbn [snd] in *.
  destruct (Hloop Hrun) as (Hs & Hd & _ & _). split; congruence.
Qed.

(** *** The debounce window between two wakes *)

Lemma switch_fire_stamps i p li st :
  edge p = EDGE_SWITCH -> (i < length (down_at st))%nat ->
  calls (service_pin i p li st).2 <> [] ->
  down_at (service_pin i p li st).1 !!! i = tv_sec li.
Proof.
  intros Hedge Hi. unfold service_pin. rewrite Hedge, Z.eqb_refl.
  repeat break_if; cbn [fst snd calls received down_at]; intros Hcalls;
    try (exfalso; now apply Hcalls);
    now rewrite list_lookup_total_insert_eq.
Qed.

Lemma switch_within_window i p li st :
  edge p = EDGE_SWITCH ->
  sub_long_long (tv_sec li) (down_at st !!! i) <= 1 ->
  calls (service_pin i p li st).2 = [].
Proof.
  intros Hedge Hwin. apply Z.ltb_ge in Hwin.
  unfold service_pin. rewrite Hedge, Z.eqb_refl.
  cbn [switch_state down_at]. rewrite Hwin.
  repeat break_if; reflexivity.
Qed.

(** X7. Two wakes in a row on a `switch' line: when the first one fired
    and the clock of the second is at most one second later, the second
    fires nothing for the line, whatever it reads. *)
Theorem fires_are_more_than_a_second_apart i p w1 w2 st st1 :
  pins !! i = Some p -> edge p = EDGE_SWITCH ->
  (i < length (down_at st))%nat ->
  fired i (wake w1 st).1 <> [] ->
  (wake w1 st).2 = Running st1 ->
  is_long_long (tv_sec (lines w2 i) - tv_sec (lines w1 i)) ->
  tv_sec (lines w2 i) - tv_sec (lines w1 i) <= 1 ->
  fired i (wake w2 st1).1 = [].
Proof.
  intros Hp Hedge Hi Hfired Hrun Hrange Hwin.
  destruct (Z.eq_dec (poll_ret w1) (-1)) as [Hfail | Hok].
  { rewrite (wake_failed w1 st Hfail) in Hfired. now contradiction Hfired. }
  destruct (wake_at_line i p w1 st Hp Hok)
    as (m & t & st' & Hw & Hm & Hs & Hf).
  rewrite Hw in Hfired, Hrun. cbn [fst snd] in *. injection Hrun as ->.
  assert (Hcalls : calls (service_pin i p (lines w1 i) m).2 <> []).
  { intros Hnil. rewrite Hf, Hnil in Hfired. now apply Hfired. }
  destruct Hm as (_ & _ & _ & Hlen).
  pose proof (switch_fire_stamps i p (lines w1 i) m Hedge
                ltac:(lia) Hcalls) as Hstamp.
  destruct Hs as (_ & Hd & _ & _).
  destruct (Z.eq_dec (poll_ret w2) (-1)) as [Hfail2 | Hok2].
  { rewrite (wake_failed w2 st1 Hfail2). reflexivity. }
  destruct (wake_at_line i p w2 st1 Hp Hok2)
    as (m2 & t2 & st2 & Hw2 & Hm2 & _ & Hf2).
  rewrite Hw2. cbn [fst]. rewrite Hf2.
  rewrite switch_within_window; [reflexivity | exact Hedge |].
  destruct Hm2 as (_ & Hd2 & _ & _).
  rewrite <- Hd2, <- Hd, Hstamp, sub_long_long_exact by exact Hrange.
  exact Hwin.
Qed.

(** *** A [read] that delivers nothing *)

(** X8. [valbuf] is shared by all pins and the result of [read] is not
    looked at.  When the [read] for a ready pass-through line delivers
    nothing, [run_script] is still called, with the value of the byte
    that the previous [read] left in [valbuf], be it for another pin. *)
Theorem empty_read_fires_the_previous_byte i j p q li lj st b :
  ready_with b lj ->
  edge p <> EDGE_SWITCH ->
  Z.land (revents li) POLLPRI <> 0 -> read_bytes li = [] ->
  calls (service_pin i p li (service_pin j q lj st).1).2
  = [(pin p, if Ascii.eqb b "1" then 1 else 0)].
Proof.
  intros [Hready [rest Hread]] Hedge Hli Hempty.
  pose proof (service_pin_valbuf j q lj st) as Hvb.
  destruct (Z.eqb_spec (Z.land (revents lj) POLLPRI) 0) as [H0 | _];
    [contradiction |].
  rewrite Hread in Hvb.
  set (st1 := (service_pin j q lj st).1) in *.
  unfold service_pin.
  destruct (Z.eqb_spec (Z.land (revents li) POLLPRI) 0) as [H0 | _];
    [contradiction |].
  destruct (Z.eqb_spec (edge p) EDGE_SWITCH) as [He | _]; [contradiction |].
  rewrite Hempty, Hvb. cbn [snd calls received].
  rewrite calls_run_script. reflexivity.
Qed.

(** *** The sizes of the three buffers *)

Lemma truncate_whole (n : nat) (s : string) :
  truncate n s = s <-> (String.length s <= n)%nat.
Proof.
  split; [| apply truncate_fits].
  intros H. rewrite <- H. apply truncate_length.
Qed.

Lemma truncate_cut (n : nat) (s : string) :
  (n <= String.length s)%nat -> String.length (truncate n s) = n.
Proof.
  revert n; induction s as [|c s IH]; intros [|n] Hn; simpl in *;
    try reflexivity; try lia.
  rewrite IH; [reflexivity | lia].
Qed.

Lemma fmt_d_nonempty (z : Z) : (1 <= String.length (fmt_d z))%nat.
Proof.
  assert (Hu : forall d, (1 <= String.length (NilZero.string_of_uint d))%nat).
  { intros d. destruct d; simpl; lia. }
  unfold fmt_d. destruct (Z.to_int z) as [d|d]; simpl.
  - apply Hu.
  - lia.
Qed.

(** X9. Which pins the three buffers hold whole.  The handler path is
    whole for pins of up to [GPIODIRLEN] characters, [pin_str] for
    fewer than [GPIODIRLEN], the path of the value file for at most
    [GPIODIRLEN - 4].  So for a pin of exactly [GPIODIRLEN] characters
    the script is looked up under its full name while the pin it is
    told has lost its last character. *)
Theorem buffers_hold_short_pins_whole (p : struct_pin) :
  let d := String.length (fmt_d (pin p)) in
  (script_path_of (pin p) = script_dir +:+ "/" +:+ fmt_d (pin p)
   <-> (d <= GPIODIRLEN)%nat)
  /\ (snprintf GPIODIRLEN (fmt_d (pin p)) = fmt_d (pin p)
      <-> (d < GPIODIRLEN)%nat)
  /\ (pin_path p = GPIO_BASE +:+ "/gpio" +:+ fmt_d (pin p) +:+ "/value"
      <-> (d + 4 <= GPIODIRLEN)%nat)
  /\ (d = GPIODIRLEN ->
      script_path_of (pin p) = script_dir +:+ "/" +:+ fmt_d (pin p)
      /\ snprintf GPIODIRLEN (fmt_d (pin p)) <> fmt_d (pin p)
      /\ String.length (snprintf GPIODIRLEN (fmt_d (pin p)))
         = (GPIODIRLEN - 1)%nat).
Proof.
  intros d. pose proof (fmt_d_nonempty (pin p)) as Hne. fold d in Hne.
  assert (Hscript : script_path_of (pin p)
                    = script_dir +:+ "/" +:+ fmt_d (pin p)
                    <-> (d <= GPIODIRLEN)%nat).
  { unfold script_path_of, snprintf. rewrite truncate_whole.
    rewrite !length_append. fold d. simpl. lia. }
  assert (Hstr : snprintf GPIODIRLEN (fmt_d (pin p)) = fmt_d (pin p)
                 <-> (d < GPIODIRLEN)%nat).
  { unfold snprintf. rewrite truncate_whole. fold d. lia. }
  split; [exact Hscript | split; [exact Hstr | split]].
  - unfold pin_path, snprintf. rewrite truncate_whole.
    rewrite !length_append. fold d. simpl. lia.
  - intros Hd. split; [apply Hscript; lia | split].
    + rewrite Hstr. lia.
    + unfold snprintf. apply truncate_cut. fold d. lia.
Qed.

End Program.

(** ** The sample configuration at work *)

Local Abbreviation sample_run_script :=
  (run_script Sample.GPIODIRLEN Sample.script_dir).
Local Abbreviation sample_service_pin :=
  (service_pin Sample.GPIODIRLEN Sample.EDGE_SWITCH Sample.script_dir).
Local Abbreviation sample_wake :=
  (wake Sample.GPIODIRLEN Sample.EDGE_SWITCH Sample.script_dir Sample.pins).
Local Abbreviation sample_startup :=
  (startup Sample.GPIODIRLEN Sample.GPIO_BASE Sample.pins).
Local Abbreviation sample_watch_pins :=
  (watch_pins Sample.GPIODIRLEN Sample.GPIO_BASE Sample.EDGE_SWITCH
              Sample.script_dir Sample.pins).

Local Abbreviation reads_1 := (Sample.reads "1" 100 (Sample.script_exits 0)).
Local Abbreviation at_rest := (Sample.confirmed 0 0 0).
Local Abbreviation pin17_reads_1 :=
  (Sample.only 1 "1" 100 (Sample.script_exits 0)).
Local Abbreviation both_read_1 :=
  (Sample.both "1" "1" 100 (Sample.script_exits 0)).
Local Abbreviation pin17_reads_1_0_1 :=
  [Sample.only 1 "1" 100 (Sample.script_exits 0);
   Sample.only 1 "0" 200 (Sample.script_exits 0);
   Sample.only 1 "1" 300 (Sample.script_exits 0)].

(** Pin 17 reads 1 a hundred seconds after its last transition. *)
Lemma switch_line_debounce_witness :
  edge Sample.pin17 = Sample.EDGE_SWITCH
  /\ ready_with "1" reads_1
  /\ (1 < length (switch_state at_rest))%nat
  /\ (1 < length (down_at at_rest))%nat
  /\ switch_state (sample_service_pin 1%nat Sample.pin17 reads_1 at_rest).1
     = [0; 1]
  /\ down_at (sample_service_pin 1%nat Sample.pin17 reads_1 at_rest).1
     = [0; 100]
  /\ calls (sample_service_pin 1%nat Sample.pin17 reads_1 at_rest).2
     = [(17, 1)].
Proof.
  set (li := reads_1). set (st := at_rest).
  assert (Hedge : edge Sample.pin17 = Sample.EDGE_SWITCH) by reflexivity.
  assert (Hready : ready_with "1" li).
  { split; [vm_compute; discriminate | eexists; reflexivity]. }
  assert (H1 : (1 < length (switch_state st))%nat) by (vm_compute; lia).
  assert (H2 : (1 < length (down_at st))%nat) by (vm_compute; lia).
  destruct (switch_line_debounce Sample.GPIODIRLEN Sample.EDGE_SWITCH
              Sample.script_dir Sample.pins 1%nat Sample.pin17 li st "1"
              Hedge Hready H1 H2) as [Hup _].
  destruct Hup as (Hs & Hd & _ & _ & Hc);
    [reflexivity | reflexivity | vm_compute; reflexivity |].
  exact (conj Hedge (conj Hready (conj H1 (conj H2
           (conj Hs (conj Hd Hc)))))).
Defined.

(** Pin 4 reads 1. *)
Lemma raw_line_fires_every_time_witness :
  edge Sample.pin4 <> Sample.EDGE_SWITCH
  /\ ready_with "1" reads_1
  /\ calls (sample_service_pin 0%nat Sample.pin4 reads_1 at_rest).2
     = [(4, 1)].
Proof.
  set (li := reads_1). set (st := at_rest).
  assert (Hedge : edge Sample.pin4 <> Sample.EDGE_SWITCH)
    by (vm_compute; discriminate).
  assert (Hready : ready_with "1" li).
  { split; [vm_compute; discriminate | eexists; reflexivity]. }
  split; [exact Hedge | split; [exact Hready |]].
  exact (proj1 (proj2 (raw_line_fires_every_time Sample.GPIODIRLEN
                         Sample.EDGE_SWITCH Sample.script_dir 0%nat
                         Sample.pin4 li st "1" Hedge Hready))).
Defined.

(** The value file of pin 4 cannot be opened: its entry of the poll set
    holds -1. *)
Lemma startup_ignores_open_and_read_results_witness :
  Sample.pins !! 0%nat = Some Sample.pin4
  /\ fdlist (sample_startup Sample.zeros Sample.pin4_unopened) !! 0%nat
     = Some {| fd := -1; events := POLLPRI |}.
Proof.
  split; [reflexivity |].
  exact (proj1 (startup_ignores_open_and_read_results Sample.GPIODIRLEN
                  Sample.GPIO_BASE Sample.EDGE_SWITCH Sample.script_dir
                  Sample.pins Sample.zeros Sample.pin4_unopened)
           0%nat Sample.pin4 eq_refl).
Defined.

(** The same start-up goes on to serve pin 17: the process has not
    exited, and monitors one line of two. *)
Lemma open_failure_is_not_fatal :
  open_ret (Sample.pin4_unopened 0%nat)
           (pin_path Sample.GPIODIRLEN Sample.GPIO_BASE Sample.pin4) = -1
  /\ initial_read (Sample.pin4_unopened 0%nat) = []
  /\ (exists st,
        (sample_watch_pins Sample.zeros Sample.pin4_unopened
           [pin17_reads_1]).2 = Running st
        /\ fd <$> fdlist st = [-1; 4])
  /\ (sample_watch_pins Sample.zeros Sample.pin4_unopened [pin17_reads_1]).1
     = [(None, Log LOG_INFO "starting to monitor for gpio events");
            (Some 1%nat, Log LOG_DEBUG "pin 17: received event");
            (Some 1%nat, Run_script 17 1);
            (Some 1%nat,
             Log LOG_INFO "pin 17: running script /etc/gpio-scripts/17");
            (Some 1%nat, Spawn "/etc/gpio-scripts/17"
                           ["/etc/gpio-scripts/17"; "17"; "1"]);
            (Some 1%nat, Wait 0)].
Proof.
  split; [reflexivity | split; [reflexivity | split]].
  - eexists. split; vm_compute; reflexivity.
  - vm_compute. reflexivity.
Qed.

Lemma poll_failure_is_fatal_whatever_errno_witness :
  poll_ret Sample.interrupted = -1
  /\ exists t code,
       sample_wake Sample.interrupted (Sample.confirmed 0 0 0)
       = (t, Exited code).
Proof.
  split; [reflexivity |].
  apply (proj2 (proj2 (poll_failure_is_fatal_whatever_errno
                         Sample.GPIODIRLEN Sample.EDGE_SWITCH
                         Sample.script_dir Sample.pins Sample.interrupted
                         (Sample.confirmed 0 0 0)))).
  reflexivity.
Defined.

(** [poll] interrupted by a signal: [perror], then [exit(1)]. *)
Lemma interrupted_poll_is_fatal :
  poll_ret Sample.interrupted = -1
  /\ poll_errno Sample.interrupted = EINTR
  /\ sample_wake Sample.interrupted (Sample.confirmed 0 0 0)
     = ([(None, Perror "poll" EINTR)], Exited 1).
Proof. repeat split. Qed.

Lemma handler_gets_path_pin_and_value_witness :
  (String.length (fmt_d 17) < Sample.GPIODIRLEN)%nat
  /\ is_file (Sample.script_exits 0)
             (script_path_of Sample.GPIODIRLEN Sample.script_dir 17) = true
  /\ fork_child (Sample.script_exits 0) = true
  /\ sample_run_script (Sample.script_exits 0) 17 1 =
       [Run_script 17 1;
        Log LOG_INFO "pin 17: running script /etc/gpio-scripts/17";
        Spawn "/etc/gpio-scripts/17" ["/etc/gpio-scripts/17"; "17"; "1"];
        Wait 0].
Proof.
  set (o := Sample.script_exits 0).
  assert (Hfit : (String.length (fmt_d 17) < Sample.GPIODIRLEN)%nat)
    by (vm_compute; lia).
  split; [exact Hfit | split; [reflexivity | split; [reflexivity |]]].
  exact (proj1 (handler_gets_path_pin_and_value Sample.GPIODIRLEN
                  Sample.GPIO_BASE Sample.EDGE_SWITCH Sample.script_dir
                  Sample.pins)
           o 17 1 Hfit eq_refl eq_refl).
Defined.

(** A handler that exits with 7, and one killed by signal 9. *)
Lemma handler_status_is_reported_witness :
  0 <= 7 <= 255
  /\ report_status 4 (exited_with 7)
     = [Log LOG_WARN "pin 4: event script exited with status = 7"]
  /\ 1 <= 9 <= 126
  /\ report_status 4 (killed_by 9 false)
     = [Log LOG_WARN "pin 4: event script exited due to signal 9"].
Proof.
  assert (H7 : 0 <= 7 <= 255) by lia.
  assert (H9 : 1 <= 9 <= 126) by lia.
  pose proof (handler_status_is_reported Sample.GPIODIRLEN
                Sample.EDGE_SWITCH Sample.script_dir Sample.pins 4)
    as (Hexit & Hsig & _).
  exact (conj H7 (conj (Hexit 7 H7) (conj H9 (Hsig 9 false H9)))).
Defined.

(** No file [/etc/gpio-scripts/4]: the event costs one warning and the
    27 bytes of the path. *)
Lemma missing_script_leaks_its_path_buffer_witness :
  is_file Sample.no_script
          (script_path_of Sample.GPIODIRLEN Sample.script_dir 4) = false
  /\ run_script_steps Sample.GPIODIRLEN Sample.script_dir
       Sample.no_script 4 1 =
       [Out (Run_script 4 1);
        Heap (Malloc 27);
        Out (Log LOG_WARN ("pin 4: script " +:+ dquote
                           +:+ "/etc/gpio-scripts/4"
                           +:+ dquote +:+ " does not exist"))]
  /\ live_buffers (run_script_steps Sample.GPIODIRLEN Sample.script_dir
                     Sample.no_script 4 1) = 1
  /\ live_buffers (run_script_steps Sample.GPIODIRLEN Sample.script_dir
                     (Sample.script_exits 0) 4 1) = 0.
Proof.
  pose proof (missing_script_leaks_its_path_buffer Sample.GPIODIRLEN
                Sample.EDGE_SWITCH Sample.script_dir Sample.pins
                Sample.no_script 4 1 eq_refl)
    as (Hsteps & _ & _ & Hlive & _ & Hfound & _).
  split; [reflexivity |].
  split; [exact Hsteps |].
  split; [exact Hlive |].
  exact (proj1 (proj2 (proj2 (Hfound (Sample.script_exits 0) eq_refl)))).
Defined.

(** Both pins ready in one wake, pin 17 at rest for a hundred seconds:
    both are served, pin 4 first, and pin 4's child has been waited for
    when pin 17's is made. *)
Lemma wake_serves_lines_in_table_order_witness :
  sample_wake both_read_1 at_rest =
    ([(Some 0%nat, Log LOG_DEBUG "pin 4: received event");
      (Some 0%nat, Run_script 4 1);
      (Some 0%nat, Log LOG_INFO "pin 4: running script /etc/gpio-scripts/4");
      (Some 0%nat,
       Spawn "/etc/gpio-scripts/4" ["/etc/gpio-scripts/4"; "4"; "1"]);
      (Some 0%nat, Wait 0);
      (Some 1%nat, Log LOG_DEBUG "pin 17: received event");
      (Some 1%nat, Run_script 17 1);
      (Some 1%nat,
       Log LOG_INFO "pin 17: running script /etc/gpio-scripts/17");
      (Some 1%nat,
       Spawn "/etc/gpio-scripts/17" ["/etc/gpio-scripts/17"; "17"; "1"]);
      (Some 1%nat, Wait 0)],
     Running {| switch_state := [0; 1]; down_at := [0; 100];
                valbuf := ["1"%char; Sample.newline; Ascii.zero];
                fdlist := fdlist at_rest |})
  /\ (sample_wake both_read_1 at_rest).1 =
       at_line 0 (served Sample.GPIODIRLEN Sample.EDGE_SWITCH
                    Sample.script_dir Sample.pins both_read_1 at_rest
                    0 Sample.pin4)
       ++ at_line 1 (served Sample.GPIODIRLEN Sample.EDGE_SWITCH
                       Sample.script_dir Sample.pins both_read_1 at_rest
                       1 Sample.pin17)
  /\ exists status t1 t2 t3,
       (sample_wake both_read_1 at_rest).1 =
         t1 ++ (Some 0%nat,
                Spawn "/etc/gpio-scripts/4" ["/etc/gpio-scripts/4"; "4"; "1"])
            :: (Some 0%nat, Wait status)
            :: t2 ++ (Some 1%nat,
                      Spawn "/etc/gpio-scripts/17"
                            ["/etc/gpio-scripts/17"; "17"; "1"])
            :: t3.
Proof.
  match goal with
  | |- ?shown /\ _ => assert (Hwake : shown) by (vm_compute; reflexivity)
  end.
  pose proof (wake_serves_lines_in_table_order Sample.GPIODIRLEN
                Sample.EDGE_SWITCH Sample.script_dir Sample.pins
                both_read_1 at_rest _ _ Hwake)
    as (Htrace & _ & _ & _ & _ & Htwo & _).
  split; [exact Hwake |].
  rewrite Hwake. cbn [fst]. split.
  - rewrite Htrace at 1. cbn [imap Sample.pins concat compose].
    rewrite app_nil_r. reflexivity.
  - apply (Htwo 0%nat 1%nat Sample.pin4 Sample.pin17);
      [lia | reflexivity | reflexivity | |];
      vm_compute; repeat constructor.
Defined.

(** Pin 17 reads 1, 0, 1 at times 100, 200, 300. *)
Lemma switch_fires_alternate_witness :
  Sample.pins !! 1%nat = Some Sample.pin17
  /\ edge Sample.pin17 = Sample.EDGE_SWITCH
  /\ fired 1 (sample_watch_pins Sample.zeros Sample.all_open
                pin17_reads_1_0_1).1 = [1; 0; 1]
  /\ alternates 1 (fired 1 (sample_watch_pins Sample.zeros Sample.all_open
                              pin17_reads_1_0_1).1).
Proof.
  set (ws := pin17_reads_1_0_1).
  split; [reflexivity | split; [reflexivity | split]].
  - vm_compute. reflexivity.
  - exact (proj1 (proj2 (switch_fires_alternate Sample.GPIODIRLEN
                           Sample.GPIO_BASE Sample.EDGE_SWITCH
                           Sample.script_dir Sample.pins 1%nat Sample.pin17
                           Sample.zeros Sample.all_open ws
                           eq_refl eq_refl))).
Defined.

Lemma first_debounce_reads_indeterminate_witness :
  Sample.pins !! 1%nat = Some Sample.pin17
  /\ edge Sample.pin17 = Sample.EDGE_SWITCH
  /\ poll_ret pin17_reads_1 <> -1
  /\ ready_with "1" (lines pin17_reads_1 1%nat)
  /\ 0 <= tv_sec (lines pin17_reads_1 1%nat) <= LLONG_MAX
  /\ exists mem1 mem2,
       is_long_long (stack_down_at mem1 1%nat)
       /\ is_long_long (stack_down_at mem2 1%nat)
       /\ fired 1 (sample_watch_pins mem1 Sample.all_open
                     [pin17_reads_1]).1 = [1]
       /\ fired 1 (sample_watch_pins mem2 Sample.all_open
                     [pin17_reads_1]).1 = [].
Proof.
  set (w := pin17_reads_1).
  assert (Hpoll : poll_ret w <> -1) by (vm_compute; discriminate).
  assert (Hready : ready_with "1" (lines w 1%nat)).
  { split; [vm_compute; discriminate | eexists; reflexivity]. }
  assert (Hnow : 0 <= tv_sec (lines w 1%nat) <= LLONG_MAX).
  { vm_compute. split; discriminate. }
  split; [reflexivity | split; [reflexivity | split; [exact Hpoll |]]].
  split; [exact Hready | split; [exact Hnow |]].
  exact (proj2 (proj2 (first_debounce_reads_indeterminate Sample.GPIODIRLEN
                         Sample.GPIO_BASE Sample.EDGE_SWITCH
                         Sample.script_dir Sample.pins 1%nat Sample.pin17
                         Sample.all_open w eq_refl eq_refl
                         Hpoll Hready Hnow))).
Defined.

(** ** Two runs of the sample configuration *)

(** Pin 4 changes to 1: its script gets ["4"] and ["1"].  Pin 17 then
    reads 1, 0, 1 within one second: only the first 1 fires. *)
Example bounce_on_pin17 :
  (sample_watch_pins Sample.zeros Sample.all_open
     [Sample.only 0 "1" 100 (Sample.script_exits 0);
      Sample.only 1 "1" 100 (Sample.script_exits 0);
      Sample.only 1 "0" 100 (Sample.script_exits 0);
      Sample.only 1 "1" 101 (Sample.script_exits 0)]).1
  = [(None, Log LOG_INFO "starting to monitor for gpio events");
     (Some 0%nat, Log LOG_DEBUG "pin 4: received event");
     (Some 0%nat, Run_script 4 1);
     (Some 0%nat, Log LOG_INFO "pin 4: running script /etc/gpio-scripts/4");
     (Some 0%nat, Spawn "/etc/gpio-scripts/4"
                    ["/etc/gpio-scripts/4"; "4"; "1"]);
     (Some 0%nat, Wait 0);
     (Some 1%nat, Log LOG_DEBUG "pin 17: received event");
     (Some 1%nat, Run_script 17 1);
     (Some 1%nat, Log LOG_INFO "pin 17: running script /etc/gpio-scripts/17");
     (Some 1%nat, Spawn "/etc/gpio-scripts/17"
                    ["/etc/gpio-scripts/17"; "17"; "1"]);
     (Some 1%nat, Wait 0);
     (Some 1%nat, Log LOG_DEBUG "pin 17: received event");
     (Some 1%nat, Log LOG_DEBUG "pin 17: received event")].
Proof. vm_compute. reflexivity. Qed.

(** A script that exits with 7 is reported and the loop goes on. *)
Example exit_status_7 :
  sample_wake (Sample.only 0 "0" 100 (Sample.script_exits 7)) at_rest
  = ([(Some 0%nat, Log LOG_DEBUG "pin 4: received event");
      (Some 0%nat, Run_script 4 0);
      (Some 0%nat, Log LOG_INFO "pin 4: running script /etc/gpio-scripts/4");
      (Some 0%nat, Spawn "/etc/gpio-scripts/4"
                     ["/etc/gpio-scripts/4"; "4"; "0"]);
      (Some 0%nat, Wait 1792);
      (Some 0%nat,
       Log LOG_WARN "pin 4: event script exited with status = 7")],
     Running at_rest).
Proof. vm_compute. reflexivity. Qed.

(** ** [main]: from the command line to [watch_pins] *)

(** *** [atoi] reads what [%d] writes *)

Lemma digits_cons c s acc d :
  digit_of c = Some d -> digits acc (String c s) = digits (acc * 10 + d) s.
Proof. intros H. cbn [digits]. rewrite H. reflexivity. Qed.

Lemma digits_acc d : forall acc,
  digits (Zpos acc) (NilEmpty.string_of_uint d) = Zpos (Pos.of_uint_acc d acc).
Proof.
  induction d; intros acc; cbn [NilEmpty.string_of_uint Pos.of_uint_acc];
    [reflexivity | ..];
    (erewrite digits_cons by reflexivity);
    rewrite <- IHd; f_equal;
    match goal with
    | |- context [Z.of_nat (nat_of_ascii ?c)] =>
        let v := eval vm_compute in (Z.of_nat (nat_of_ascii c)) in
        change (Z.of_nat (nat_of_ascii c)) with v
    end;
    rewrite ?Pos2Z.inj_add, ?Pos2Z.inj_mul; lia.
Qed.

Lemma digits_zero d :
  digits 0 (NilEmpty.string_of_uint d) = Z.of_N (Pos.of_uint d).
Proof.
  induction d; cbn [NilEmpty.string_of_uint Pos.of_uint];
    [reflexivity | ..];
    (erewrite digits_cons by reflexivity); cbn [Z.mul Z.add Z.of_N];
    [exact IHd | apply digits_acc ..].
Qed.

Lemma digits_zero_nilzero d :
  digits 0 (NilZero.string_of_uint d) = Z.of_N (Pos.of_uint d).
Proof. destruct d; [reflexivity | exact (digits_zero _) ..]. Qed.

Lemma strtol10_unsigned d :
  strtol10 (NilZero.string_of_uint d)
  = Z.max LONG_MIN (Z.min LONG_MAX (Z.of_N (Pos.of_uint d))).
Proof.
  rewrite <- digits_zero.
  destruct d; reflexivity.
Qed.

Lemma atoi_fmt_d n : INT_MIN <= n <= INT_MAX -> atoi (fmt_d n) = n.
Proof.
  unfold INT_MIN, INT_MAX. intros Hn.
  assert (Hint : to_int n = n).
  { unfold to_int. rewrite Z.mod_small; lia. }
  unfold atoi, fmt_d.
  destruct n as [|p|p]; [reflexivity | |].
  - cbn [Z.to_int NilZero.string_of_int].
    rewrite strtol10_unsigned, DecimalPos.Unsigned.of_to. cbn [Z.of_N].
    unfold LONG_MIN, LONG_MAX. rewrite Z.min_r, Z.max_r by lia. exact Hint.
  - cbn [Z.to_int NilZero.string_of_int].
    assert (Hs : strtol10 (String "-" (NilZero.string_of_uint (Pos.to_uint p)))
                 = Z.max LONG_MIN (Z.min LONG_MAX
                     (- digits 0 (NilZero.string_of_uint (Pos.to_uint p)))))
      by reflexivity.
    rewrite Hs.
    assert (Hd : digits 0 (NilZero.string_of_uint (Pos.to_uint p)) = Zpos p).
    { rewrite digits_zero_nilzero, DecimalPos.Unsigned.of_to. reflexivity. }
    rewrite Hd. unfold LONG_MIN, LONG_MAX.
    rewrite Z.min_r, Z.max_r by lia. exact Hint.
Qed.

(** *** Options *)

Lemma and_then_go (g : globals) k : and_then ([], Go g) k = k g.
Proof. unfold and_then. destruct (k g). reflexivity. Qed.

Lemma option_loop_go parse_edge answers : forall g t g',
  option_loop parse_edge answers g = (t, Go g') -> t = [].
Proof.
  induction answers as [|[ch optarg] rest IH]; intros g t g' H.
  - now injection H as <- _.
  - cbn [option_loop] in H.
    repeat match type of H with
           | context [if ?c then _ else _] => destruct c
           end; try discriminate; eauto.
Qed.

(** The options are taken from left to right. *)
Lemma option_loop_app parse_edge a b g :
  option_loop parse_edge (a ++ b) g
  = and_then (option_loop parse_edge a g) (option_loop parse_edge b).
Proof.
  revert g. induction a as [|[ch optarg] a IH]; intros g.
  - cbn [app option_loop]. now rewrite and_then_go.
  - cbn [app option_loop].
    repeat match goal with
           | |- context [if ?c then _ else _] => destruct c
           end; try reflexivity; apply IH.
Qed.

(** X16. The first option that is wrong ends the program, whatever
    comes after it: an argument of [-e] that [parse_edge] rejects gives
    a message that names it and status 1; an option that [getopt]
    reports as unknown gives the usage line and status 2. *)
Theorem first_bad_option_stops parse_edge pre g g1 arg post :
  option_loop parse_edge pre g = ([], Go g1) ->
  (parse_edge arg = -1 ->
   option_loop parse_edge (pre ++ (OPT_DEFAULT_EDGE, arg) :: post) g
   = ([Fprintf_stderr ("error: invalid edge value: " +:+ arg
                       +:+ newline_text)], Stop 1))
  /\ option_loop parse_edge (pre ++ ("?"%char, arg) :: post) g
     = (usage_stderr, Stop 2).
Proof.
  intros Hpre. split.
  - intros Hbad. rewrite option_loop_app, Hpre. cbn [and_then option_loop].
    cbn [Ascii.eqb Bool.eqb OPT_DEFAULT_EDGE OPT_LOGFILE OPT_DETACH
         OPT_SCRIPT_DIR].
    rewrite Hbad. reflexivity.
  - rewrite option_loop_app, Hpre. reflexivity.
Qed.

(** X15. An option letter for which the [switch] has no [case] changes
    nothing and is no error.  [OPTSTRING] lets [getopt] return such a
    letter, [D]. *)
Theorem letters_without_case_are_ignored parse_edge answers g :
  option_loop parse_edge (filter (fun a => has_case a.1 = true) answers) g
  = option_loop parse_edge answers g.
Proof.
  revert g. induction answers as [|[ch optarg] rest IH]; intros g;
    [reflexivity |].
  rewrite filter_cons. cbn [fst].
  destruct (decide (has_case ch = true)) as [Hc | Hc].
  - cbn [option_loop].
    repeat match goal with
           | |- context [if ?c then _ else _] => destruct c
           end; try reflexivity; apply IH.
  - rewrite IH. apply not_true_is_false in Hc.
    unfold has_case in Hc.
    repeat (apply orb_false_elim in Hc as [Hc ?]).
    cbn [option_loop].
    repeat match goal with
           | H : Ascii.eqb _ _ = false |- _ => rewrite H; clear H
           end.
    reflexivity.
Qed.

(** X14. When the option loop ends without stopping it has printed
    nothing and has left the table alone; [loglevel] has grown by the
    number of [-v]; [detach] is 1 when there was a [-d]; for [-s], [-l]
    and [-e] the last one given counts. *)
Theorem options_summed_up parse_edge answers : forall g t g',
  option_loop parse_edge answers g = (t, Go g') ->
  t = []
  /\ g_pins g' = g_pins g
  /\ g_loglevel g' = g_loglevel g + Z.of_nat (count_opt OPT_VERBOSE answers)
  /\ g_detach g'
     = (if Nat.eqb (count_opt OPT_DETACH answers) 0 then g_detach g else 1)
  /\ g_script_dir g'
     = default (g_script_dir g) (last_arg OPT_SCRIPT_DIR answers)
  /\ g_logfile g'
     = match last_arg OPT_LOGFILE answers with
       | Some path => Some path
       | None => g_logfile g
       end
  /\ g_default_edge g'
     = match last_arg OPT_DEFAULT_EDGE answers with
       | Some text => parse_edge text
       | None => g_default_edge g
       end.
Proof.
  unfold OPT_LOGFILE, OPT_DETACH, OPT_SCRIPT_DIR, OPT_DEFAULT_EDGE,
    OPT_VERBOSE.
  induction answers as [|[ch optarg] rest IH]; intros g t g' H.
  - injection H as <- <-. cbn. repeat split; try reflexivity. lia.
  - cbn [option_loop] in H.
    unfold OPT_LOGFILE, OPT_DETACH, OPT_SCRIPT_DIR, OPT_DEFAULT_EDGE,
      OPT_VERBOSE in H.
    cbn [last_arg count_opt].
    destruct (Ascii.eqb_spec ch "l") as [-> | Hl];
      [destruct (IH _ _ _ H) as (I1 & I2 & I3 & I4 & I5 & I6 & I7) |
       destruct (Ascii.eqb_spec ch "d") as [-> | Hd];
       [destruct (IH _ _ _ H) as (I1 & I2 & I3 & I4 & I5 & I6 & I7) |
        destruct (Ascii.eqb_spec ch "s") as [-> | Hs];
        [destruct (IH _ _ _ H) as (I1 & I2 & I3 & I4 & I5 & I6 & I7) |
         destruct (Ascii.eqb_spec ch "e") as [-> | He];
         [destruct (parse_edge optarg =? -1); [discriminate |];
          destruct (IH _ _ _ H) as (I1 & I2 & I3 & I4 & I5 & I6 & I7) |
          destruct (Ascii.eqb_spec ch "v") as [-> | Hv];
          [destruct (IH _ _ _ H) as (I1 & I2 & I3 & I4 & I5 & I6 & I7) |
           destruct (Ascii.eqb_spec ch "?") as [-> | Hq]; [discriminate |];
           destruct (IH _ _ _ H) as (I1 & I2 & I3 & I4 & I5 & I6 & I7)]]]]];
      rewrite I1, I2, I3, I4, I5, I6, I7;
      cbn [Ascii.eqb Bool.eqb g_pins g_loglevel g_detach
           g_script_dir g_logfile g_default_edge set_logfile set_detach
           set_script_dir set_default_edge set_loglevel];
      repeat match goal with
             | H : ?c <> ?k |- context [Ascii.eqb ?c ?k] =>
                 rewrite (proj2 (Ascii.eqb_neq c k) H)
             end;
      repeat split; try reflexivity;
      try (match goal with
           | |- context [last_arg ?c rest] => destruct (last_arg c rest)
           end; reflexivity);
      try (match goal with
           | |- context [count_opt ?c rest] => destruct (count_opt c rest)
           end; reflexivity);
      try lia.
Qed.

(** *** Operands *)

Lemma set_pins_same g : set_pins g (g_pins g) = g.
Proof. destruct g. reflexivity. Qed.

Lemma pinspec_loop_go parse_edge args : forall g t g',
  pinspec_loop parse_edge args g = (t, Go g') ->
  t = []
  /\ Forall (fun arg => bad_edge_spec parse_edge arg = false) args
  /\ g' = set_pins g (g_pins g
                      ++ map (entry_of parse_edge (g_default_edge g)) args).
Proof.
  induction args as [|arg rest IH]; intros g t g' H.
  - injection H as <- <-. cbn [map]. rewrite app_nil_r, set_pins_same. auto.
  - cbn [pinspec_loop] in H. unfold bad_edge_spec, entry_of. cbn [map].
    destruct (split_at ":" arg) as [[pinspec pos]|] eqn:Hsplit.
    + destruct (parse_edge pos =? -1) eqn:Hbad; [discriminate |].
      destruct (IH _ _ _ H) as (-> & Hgood & ->).
      split; [reflexivity | split].
      * constructor; [rewrite Hsplit; exact Hbad | exact Hgood].
      * unfold set_pins, add_pin. cbn. rewrite <- app_assoc. reflexivity.
    + destruct (IH _ _ _ H) as (-> & Hgood & ->).
      split; [reflexivity | split].
      * constructor; [rewrite Hsplit; reflexivity | exact Hgood].
      * unfold set_pins, add_pin. cbn. rewrite <- app_assoc. reflexivity.
Qed.

(** X12. When no operand has an edge that [parse_edge] rejects, the
    operand loop prints nothing and appends one entry per operand to
    the table, in the order of the command line: the pin is [atoi] of
    the text before the first colon, the edge is [parse_edge] of the
    text after it, or the default edge when there is no colon.  The
    other globals keep their values. *)
Theorem operands_become_the_table parse_edge args : forall g,
  Forall (fun arg => bad_edge_spec parse_edge arg = false) args ->
  pinspec_loop parse_edge args g
  = ([], Go (set_pins g (g_pins g
                         ++ map (entry_of parse_edge (g_default_edge g))
                                args))).
Proof.
  induction args as [|arg rest IH]; intros g Hgood.
  - cbn [pinspec_loop map]. now rewrite app_nil_r, set_pins_same.
  - apply Forall_cons in Hgood as [Harg Hrest].
    cbn [pinspec_loop map]. unfold bad_edge_spec in Harg. unfold entry_of.
    destruct (split_at ":" arg) as [[pinspec pos]|].
    + rewrite Harg, IH by exact Hrest.
      unfold set_pins, add_pin. cbn. rewrite <- app_assoc. reflexivity.
    + rewrite IH by exact Hrest.
      unfold set_pins, add_pin. cbn. rewrite <- app_assoc. reflexivity.
Qed.

(** X13. The first operand whose edge [parse_edge] rejects stops the
    program with status 1 and a message that names that operand,
    whatever follows it. *)
Theorem first_bad_edge_spec_stops parse_edge pre arg post : forall g,
  Forall (fun a => bad_edge_spec parse_edge a = false) pre ->
  bad_edge_spec parse_edge arg = true ->
  pinspec_loop parse_edge (pre ++ arg :: post) g
  = ([Fprintf_stderr ("error: unknown edge spec: " +:+ arg
                      +:+ newline_text)], Stop 1).
Proof.
  induction pre as [|a pre IH]; intros g Hgood Hbad.
  - cbn [app pinspec_loop]. unfold bad_edge_spec in Hbad.
    destruct (split_at ":" arg) as [[pinspec pos]|]; [| discriminate].
    rewrite Hbad. reflexivity.
  - apply Forall_cons in Hgood as [Ha Hpre].
    cbn [app pinspec_loop]. unfold bad_edge_spec in Ha.
    destruct (split_at ":" a) as [[pinspec pos]|].
    + rewrite Ha. apply IH; assumption.
    + apply IH; assumption.
Qed.

Lemma split_at_none_digits d :
  split_at ":" (NilEmpty.string_of_uint d) = None.
Proof.
  induction d; cbn [NilEmpty.string_of_uint split_at]; [reflexivity | ..];
    cbn [Ascii.eqb Bool.eqb]; rewrite IHd; reflexivity.
Qed.

Lemma split_at_none_fmt_d n : split_at ":" (fmt_d n) = None.
Proof.
  unfold fmt_d. destruct (Z.to_int n) as [d|d]; cbn [NilZero.string_of_int].
  - destruct d; [reflexivity | exact (split_at_none_digits _) ..].
  - cbn [split_at Ascii.eqb Bool.eqb].
    replace (split_at ":" (NilZero.string_of_uint d)) with (@None (string * string));
      [reflexivity |].
    destruct d; [reflexivity | symmetry; exact (split_at_none_digits _) ..].
Qed.

Lemma split_at_first c a b :
  split_at c a = None -> split_at c (a +:+ String c b) = Some (a, b).
Proof.
  induction a as [|x a IH]; intros Hnone; simpl.
  - rewrite Ascii.eqb_refl. reflexivity.
  - simpl in Hnone.
    destruct (Ascii.eqb x c); [discriminate |].
    destruct (split_at c a) as [[? ?]|]; [discriminate |].
    rewrite IH by reflexivity. reflexivity.
Qed.

Lemma decimal_operand_round_trip parse_edge g n :
  INT_MIN <= n <= INT_MAX ->
  pinspec_loop parse_edge [fmt_d n] g
  = ([], Go (add_pin g {| pin := n; edge := g_default_edge g |})).
Proof.
  intros Hn. cbn [pinspec_loop].
  rewrite split_at_none_fmt_d, atoi_fmt_d by exact Hn. reflexivity.
Qed.

(** X10. An operand that is the decimal form of an [int] [n] yields
    pin [n] with the default edge; followed by a colon and an edge name
    that [parse_edge] accepts it yields pin [n] with that edge. *)
Theorem decimal_operand_names_its_pin parse_edge g n text :
  INT_MIN <= n <= INT_MAX ->
  pinspec_loop parse_edge [fmt_d n] g
  = ([], Go (add_pin g {| pin := n; edge := g_default_edge g |}))
  /\ (parse_edge text <> -1 ->
      pinspec_loop parse_edge [fmt_d n +:+ ":" +:+ text] g
      = ([], Go (add_pin g {| pin := n; edge := parse_edge text |}))).
Proof.
  intros Hn. split.
  - apply decimal_operand_round_trip, Hn.
  - intros Hok. cbn [pinspec_loop].
    change (":" +:+ text) with (String ":" text).
    rewrite split_at_first by apply split_at_none_fmt_d.
    destruct (Z.eqb_spec (parse_edge text) (-1)) as [Hbad | _];
      [contradiction |].
    rewrite atoi_fmt_d by exact Hn. reflexivity.
Qed.

(** X11. [atoi] reports no error.  An operand that does not begin with
    white space, a sign or a digit, and the empty operand, give 0: such
    an operand is taken as pin 0 without a message. *)
Theorem operand_that_is_no_number_is_pin_0 parse_edge g c s :
  isspace c = false -> digit_of c = None ->
  c <> "-"%char -> c <> "+"%char ->
  atoi (String c s) = 0
  /\ atoi "" = 0
  /\ (split_at ":" (String c s) = None ->
      pinspec_loop parse_edge [String c s] g
      = ([], Go (add_pin g {| pin := 0; edge := g_default_edge g |}))).
Proof.
  intros Hspace Hdigit Hminus Hplus.
  assert (Hatoi : atoi (String c s) = 0).
  { unfold atoi, strtol10. cbn [skip_space]. rewrite Hspace.
    rewrite (proj2 (Ascii.eqb_neq c "-") Hminus),
            (proj2 (Ascii.eqb_neq c "+") Hplus).
    cbn [digits]. rewrite Hdigit. reflexivity. }
  split; [exact Hatoi | split; [reflexivity |]].
  intros Hsplit. cbn [pinspec_loop]. rewrite Hsplit, Hatoi. reflexivity.
Qed.

(** *** [main] as a whole *)

Lemma option_loop_stop parse_edge answers : forall g t code,
  option_loop parse_edge answers g = (t, Stop code) ->
  Forall (fun e => configures e = false) t
  /\ (code = 1 \/ (code = 2 /\ exists arg, ("?"%char, arg) ∈ answers)).
Proof.
  induction answers as [|[ch optarg] rest IH]; intros g t code H;
    [discriminate |].
  cbn [option_loop] in H.
  assert (Hrest : forall g1, option_loop parse_edge rest g1 = (t, Stop code) ->
            Forall (fun e => configures e = false) t
            /\ (code = 1 \/ (code = 2
                /\ exists arg, ("?"%char, arg) ∈ (ch, optarg) :: rest))).
  { intros g1 H1. destruct (IH _ _ _ H1) as [Hplain [Hc | [Hc [arg Harg]]]].
    - auto.
    - split; [exact Hplain | right]. split; [exact Hc |].
      exists arg. now right. }
  destruct (Ascii.eqb ch OPT_LOGFILE); [eauto |].
  destruct (Ascii.eqb ch OPT_DETACH); [eauto |].
  destruct (Ascii.eqb ch OPT_SCRIPT_DIR); [eauto |].
  destruct (Ascii.eqb ch OPT_DEFAULT_EDGE).
  { destruct (parse_edge optarg =? -1); [| eauto].
    injection H as <- <-. split; [repeat constructor | auto]. }
  destruct (Ascii.eqb ch OPT_VERBOSE); [eauto |].
  destruct (Ascii.eqb_spec ch "?") as [-> | _]; [| eauto].
  injection H as <- <-. split; [repeat constructor | right].
  split; [reflexivity |]. exists optarg. left.
Qed.

Lemma pinspec_loop_stop parse_edge args : forall g t code,
  pinspec_loop parse_edge args g = (t, Stop code) ->
  Forall (fun e => configures e = false) t /\ code = 1.
Proof.
  induction args as [|arg rest IH]; intros g t code H; [discriminate |].
  cbn [pinspec_loop] in H.
  destruct (split_at ":" arg) as [[pinspec pos]|]; [| eauto].
  destruct (parse_edge pos =? -1); [| eauto].
  injection H as <- <-. split; [repeat constructor | reflexivity].
Qed.

Lemma main_arguments_go parse_edge inp g0 t g :
  main_arguments parse_edge inp g0 = (t, Go g) ->
  exists g1,
    option_loop parse_edge (getopt_answers inp) g0 = ([], Go g1)
    /\ (forall path, g_logfile g1 = Some path -> logfile_open inp path <> -1)
    /\ is_dir inp (g_script_dir g1) = true
    /\ Forall (fun arg => bad_edge_spec parse_edge arg = false) (operands inp)
    /\ g = set_pins g1 (g_pins g1
                        ++ map (entry_of parse_edge (g_default_edge g1))
                               (operands inp))
    /\ t = redirection inp g1.
Proof.
  unfold main_arguments. intros H.
  destruct (option_loop parse_edge (getopt_answers inp) g0)
    as [t1 [g1|c1]] eqn:Hopt; [| discriminate].
  pose proof (option_loop_go _ _ _ _ _ Hopt) as ->.
  cbn [and_then] in H.
  unfold redirect_output, check_script_dir, redirection in *.
  exists g1. split; [reflexivity |].
  destruct (g_logfile g1) as [path|] eqn:Hlog.
  - destruct (Z.eqb_spec (logfile_open inp path) (-1)) as [Hfail | Hopen];
      [discriminate |].
    cbn [and_then] in H.
    destruct (is_dir inp (g_script_dir g1)); [| discriminate].
    cbn [negb and_then] in H.
    destruct (pinspec_loop parse_edge (operands inp) g1)
      as [t3 [g3|c3]] eqn:Hpins; [| discriminate].
    destruct (pinspec_loop_go _ _ _ _ _ Hpins) as (-> & Hgood & ->).
    cbn in H. injection H as <- <-.
    repeat split; try assumption; try reflexivity.
    intros path' [= <-]. exact Hopen.
  - cbn [and_then] in H.
    destruct (is_dir inp (g_script_dir g1)); [| discriminate].
    cbn [negb and_then] in H.
    destruct (pinspec_loop parse_edge (operands inp) g1)
      as [t3 [g3|c3]] eqn:Hpins; [| discriminate].
    destruct (pinspec_loop_go _ _ _ _ _ Hpins) as (-> & Hgood & ->).
    cbn in H. injection H as <- <-.
    repeat split; try assumption; try reflexivity.
    intros path' [=].
Qed.

Lemma redirection_plain inp g :
  Forall (fun e => configures e = false) (redirection inp g).
Proof. unfold redirection. destruct (g_logfile g); repeat constructor. Qed.

Lemma main_arguments_stop parse_edge inp g0 t code :
  main_arguments parse_edge inp g0 = (t, Stop code) ->
  Forall (fun e => configures e = false) t
  /\ (code = 1
      \/ (code = 2 /\ exists arg, ("?"%char, arg) ∈ getopt_answers inp)).
Proof.
  unfold main_arguments. intros H.
  destruct (option_loop parse_edge (getopt_answers inp) g0)
    as [t1 [g1|c1]] eqn:Hopt.
  - pose proof (option_loop_go _ _ _ _ _ Hopt) as ->.
    cbn [and_then] in H.
    pose proof (redirection_plain inp g1) as Hred.
    unfold redirect_output, check_script_dir, redirection in *.
    destruct (g_logfile g1) as [path|].
    + destruct (logfile_open inp path =? -1).
      { injection H as <- <-. split; [repeat constructor | auto]. }
      cbn [and_then] in H.
      destruct (is_dir inp (g_script_dir g1)); cbn [negb and_then] in H.
      * destruct (pinspec_loop parse_edge (operands inp) g1)
          as [t3 [g3|c3]] eqn:Hpins; [discriminate |].
        destruct (pinspec_loop_stop _ _ _ _ _ Hpins) as [Hplain ->].
        cbn in H. injection H as <- <-.
        split; [| auto]. repeat constructor. exact Hplain.
      * cbn in H. injection H as <- <-.
        split; [repeat constructor | auto].
    + cbn [and_then] in H.
      destruct (is_dir inp (g_script_dir g1)); cbn [negb and_then] in H.
      * destruct (pinspec_loop parse_edge (operands inp) g1)
          as [t3 [g3|c3]] eqn:Hpins; [discriminate |].
        destruct (pinspec_loop_stop _ _ _ _ _ Hpins) as [Hplain ->].
        cbn in H. injection H as <- <-. auto.
      * cbn in H. injection H as <- <-.
        split; [repeat constructor | auto].
  - cbn [and_then] in H. injection H as <- <-.
    apply (option_loop_stop _ _ _ _ _ Hopt).
Qed.

(** X17. When [main] exits before [watch_pins], no pin has been
    exported or configured and [daemon] has not been called.  The
    status is 1, or 2 when [getopt] has reported an unknown option. *)
Theorem exit_before_any_pin_is_touched parse_edge DIRECTION_IN inp g0 t code :
  main_startup parse_edge DIRECTION_IN inp g0 = (t, Exit code) ->
  Forall (fun e => configures e = false) t
  /\ (code = 1
      \/ (code = 2 /\ exists arg, ("?"%char, arg) ∈ getopt_answers inp)).
Proof.
  unfold main_startup. intros H.
  destruct (main_arguments parse_edge inp g0) as [t0 [g|c]] eqn:Hargs.
  - destruct (g_pins g); discriminate.
  - injection H as <- <-. apply (main_arguments_stop _ _ _ _ _ Hargs).
Qed.

(** X18. When [main] reaches [watch_pins] for a command line with
    pins: the options were all fine, the script directory exists, the
    table is the operands in order, and what [main] did is, in this
    order, the redirection to the log file if one was asked for, then
    for every pin of the table [pin_export], [pin_set_edge] and
    [pin_set_direction], then [daemon] if [-d] was given. *)
Theorem watch_pins_follows_full_setup parse_edge DIRECTION_IN inp g0 t g :
  main_startup parse_edge DIRECTION_IN inp g0 = (t, Watch g) ->
  exists g1,
    option_loop parse_edge (getopt_answers inp) g0 = ([], Go g1)
    /\ is_dir inp (g_script_dir g) = true
    /\ g_script_dir g = g_script_dir g1
    /\ g_pins g
       = g_pins g1 ++ map (entry_of parse_edge (g_default_edge g1))
                          (operands inp)
    /\ g_pins g <> []
    /\ t = redirection inp g1
           ++ setup_pins DIRECTION_IN (g_pins g)
           ++ detach_if_asked g
    /\ Forall (fun e => configures e = false) (redirection inp g1)
    /\ (g_detach g = 0 -> detach_if_asked g = [])
    /\ (g_detach g <> 0 ->
        detach_if_asked g
        = [Daemon 1 (match g_logfile g with Some _ => 1 | None => 0 end)]).
Proof.
  unfold main_startup. intros H.
  destruct (main_arguments parse_edge inp g0) as [t0 [g'|c]] eqn:Hargs;
    [| discriminate].
  destruct (g_pins g') as [|p ps] eqn:Hpins; [discriminate |].
  injection H as <- <-.
  destruct (main_arguments_go _ _ _ _ _ Hargs)
    as (g1 & Hopt & _ & Hdir & _ & -> & ->).
  exists g1. cbn [set_pins g_script_dir g_pins] in *.
  repeat split; try assumption; try reflexivity.
  - rewrite Hpins. discriminate.
  - rewrite Hpins. reflexivity.
  - apply redirection_plain.
  - intros Hd. unfold detach_if_asked. cbn [g_detach set_pins] in *.
    now rewrite Hd.
  - intros Hd. unfold detach_if_asked. cbn [g_detach set_pins g_logfile] in *.
    destruct (Z.eqb_spec (g_detach g1) 0); [contradiction | reflexivity].
Qed.

(** X19. The operands are looked at last.  With fine options, a log
    file that cannot be opened stops the program with status 1 before
    the script directory is tested, and a missing script directory
    stops it with status 1 after the redirection, in both cases
    whatever the operands are. *)
Theorem operands_wait_for_log_file_and_script_dir parse_edge inp g0 g1 :
  option_loop parse_edge (getopt_answers inp) g0 = ([], Go g1) ->
  (forall path, g_logfile g1 = Some path -> logfile_open inp path = -1 ->
     main_arguments parse_edge inp g0
     = ([Log_error ("failed to open logfile " +:+ path)], Stop 1))
  /\ ((forall path, g_logfile g1 = Some path -> logfile_open inp path <> -1) ->
      is_dir inp (g_script_dir g1) = false ->
      main_arguments parse_edge inp g0
      = (redirection inp g1
         ++ [Log_error ("error: script directory " +:+ dquote
                        +:+ g_script_dir g1 +:+ dquote
                        +:+ " does not exist.")], Stop 1)).
Proof.
  intros Hopt. unfold main_arguments. rewrite Hopt. cbn [and_then].
  unfold redirect_output, check_script_dir, redirection. split.
  - intros path Hlog Hfail. rewrite Hlog, Hfail. reflexivity.
  - intros Hopen Hdir.
    destruct (g_logfile g1) as [path|].
    + destruct (Z.eqb_spec (logfile_open inp path) (-1)) as [Hfail | _];
        [now apply (Hopen path) in Hfail |].
      cbn [and_then]. rewrite Hdir. reflexivity.
    + cbn [and_then]. rewrite Hdir. reflexivity.
Qed.

(** X20. From the command line to the script.  For an operand that is
    the decimal form of [n], when the script exists and [fork]
    succeeds, the script run for its events is the one named after the
    operand in the script directory, and its first argument is the
    operand as it was typed; this is for operands shorter than
    [GPIODIRLEN]. *)
Theorem operand_text_reaches_the_script GPIODIRLEN parse_edge g n o value :
  0 <= n <= INT_MAX ->
  (String.length (fmt_d n) < GPIODIRLEN)%nat ->
  exists p,
    pinspec_loop parse_edge [fmt_d n] g = ([], Go (add_pin g p))
    /\ (is_file o (script_path_of GPIODIRLEN (g_script_dir g) (pin p)) = true ->
        fork_child o = true ->
        run_script GPIODIRLEN (g_script_dir g) o (pin p) value
        = [Run_script n value;
           Log LOG_INFO ("pin " +:+ fmt_d n +:+ ": running script "
                         +:+ g_script_dir g +:+ "/" +:+ fmt_d n);
           Spawn (g_script_dir g +:+ "/" +:+ fmt_d n)
                 [g_script_dir g +:+ "/" +:+ fmt_d n; fmt_d n; fmt_d value];
           Wait (wait_status o)]
          ++ report_status n (wait_status o)).
Proof.
  intros Hn Hfit.
  exists {| pin := n; edge := g_default_edge g |}. split.
  - apply decimal_operand_round_trip. unfold INT_MIN. lia.
  - cbn [pin]. intros Hfile Hfork. unfold run_script.
    rewrite Hfile, Hfork, pin_str_fits, script_path_fits by lia.
    reflexivity.
Qed.

(** ** The further properties on the sample configuration *)

Local Abbreviation sample_wait_loop :=
  (wait_loop Sample.GPIODIRLEN Sample.EDGE_SWITCH Sample.script_dir
             Sample.pins).
Local Abbreviation sample_globals := (initial_globals Sample.EDGE_BOTH 0).

(** A wake that reports only [POLLERR]. *)
Lemma wake_without_POLLPRI_witness :
  poll_ret Sample.errors_only <> -1
  /\ (forall i, Z.land (revents (lines Sample.errors_only i)) POLLPRI = 0)
  /\ sample_wake Sample.errors_only at_rest = ([], Running at_rest).
Proof.
  assert (Hok : poll_ret Sample.errors_only <> -1) by (vm_compute; discriminate).
  assert (Hidle : forall i,
            Z.land (revents (lines Sample.errors_only i)) POLLPRI = 0)
    by (intros i; reflexivity).
  split; [exact Hok | split; [exact Hidle |]].
  exact (wake_without_POLLPRI Sample.GPIODIRLEN Sample.EDGE_SWITCH
           Sample.script_dir Sample.pins Sample.errors_only at_rest
           Hok Hidle).
Defined.

Lemma locals_keep_their_shape_witness :
  exists st,
    (sample_watch_pins Sample.zeros Sample.all_open pin17_reads_1_0_1).2
    = Running st
    /\ length (valbuf st) = 3%nat
    /\ char_at (valbuf st) 2 = Ascii.zero
    /\ fdlist st = fdlist (sample_startup Sample.zeros Sample.all_open).
Proof.
  eexists. split; [vm_compute; reflexivity |].
  pose proof (locals_keep_their_shape Sample.GPIODIRLEN Sample.GPIO_BASE
                Sample.EDGE_SWITCH Sample.script_dir Sample.pins
                Sample.zeros Sample.all_open pin17_reads_1_0_1 _
                ltac:(vm_compute; reflexivity))
    as (H1 & H2 & _ & _ & H5 & _).
  exact (conj H1 (conj H2 H5)).
Defined.

Lemma every_call_is_for_a_table_pin_witness :
  (Some 1%nat, Run_script 17 1)
    ∈ (sample_watch_pins Sample.zeros Sample.all_open [pin17_reads_1]).1
  /\ exists i p,
       Some 1%nat = Some i /\ Sample.pins !! i = Some p /\ 17 = pin p
       /\ (1 = 0 \/ 1 = 1)
       /\ String.length (fmt_d 1) = 1%nat.
Proof.
  assert (Hin : (Some 1%nat, Run_script 17 1)
                  ∈ (sample_watch_pins Sample.zeros Sample.all_open
                       [pin17_reads_1]).1).
  { vm_compute. do 2 apply list_elem_of_further. apply list_elem_of_here. }
  split; [exact Hin |].
  exact (every_call_is_for_a_table_pin Sample.GPIODIRLEN Sample.GPIO_BASE
           Sample.EDGE_SWITCH Sample.script_dir Sample.pins Sample.zeros
           Sample.all_open [pin17_reads_1] (Some 1%nat) 17 1 Hin).
Defined.

(** Pin 17 fires the same whether pin 4 is quiet or busy. *)
Lemma lines_do_not_interfere_witness :
  Sample.pins !! 1%nat = Some Sample.pin17
  /\ fired 1 (sample_wait_loop [pin17_reads_1] at_rest).1
     = fired 1 (sample_wait_loop
                  [Sample.both "0" "1" 100 (Sample.script_exits 0)]
                  at_rest).1.
Proof.
  split; [reflexivity |].
  refine (lines_do_not_interfere Sample.GPIODIRLEN Sample.EDGE_SWITCH
            Sample.script_dir Sample.pins 1%nat Sample.pin17
            [pin17_reads_1]
            [Sample.both "0" "1" 100 (Sample.script_exits 0)]
            eq_refl _ at_rest at_rest _).
  - constructor; [| constructor].
    split; [reflexivity | split].
    + split; intros H; vm_compute in H; discriminate H.
    + intros _. vm_compute. discriminate.
  - repeat split.
Defined.

Lemma raw_line_never_touches_debounce_arrays_witness :
  Sample.pins !! 0%nat = Some Sample.pin4
  /\ edge Sample.pin4 <> Sample.EDGE_SWITCH
  /\ exists st,
       (sample_watch_pins Sample.zeros Sample.all_open [both_read_1]).2
       = Running st
       /\ switch_state st !!! 0%nat = 0
       /\ down_at st !!! 0%nat = stack_down_at Sample.zeros 0%nat.
Proof.
  assert (Hedge : edge Sample.pin4 <> Sample.EDGE_SWITCH)
    by (vm_compute; discriminate).
  split; [reflexivity | split; [exact Hedge |]].
  eexists. split; [vm_compute; reflexivity |].
  exact (raw_line_never_touches_debounce_arrays Sample.GPIODIRLEN
           Sample.GPIO_BASE Sample.EDGE_SWITCH Sample.script_dir
           Sample.pins 0%nat Sample.pin4 Sample.zeros Sample.all_open
           [both_read_1] _ eq_refl Hedge ltac:(vm_compute; reflexivity)).
Defined.

(** Pin 17 fires at 100; a 0 read at 101 is dropped. *)
Lemma fires_are_more_than_a_second_apart_witness :
  exists st1,
    Sample.pins !! 1%nat = Some Sample.pin17
    /\ edge Sample.pin17 = Sample.EDGE_SWITCH
    /\ (1 < length (down_at at_rest))%nat
    /\ fired 1 (sample_wake pin17_reads_1 at_rest).1 <> []
    /\ (sample_wake pin17_reads_1 at_rest).2 = Running st1
    /\ fired 1 (sample_wake
                  (Sample.only 1 "0" 101 (Sample.script_exits 0)) st1).1
       = [].
Proof.
  eexists.
  assert (Hlen : (1 < length (down_at at_rest))%nat) by (vm_compute; lia).
  assert (Hfired : fired 1 (sample_wake pin17_reads_1 at_rest).1 <> [])
    by (vm_compute; discriminate).
  split; [reflexivity | split; [reflexivity | split; [exact Hlen |]]].
  split; [exact Hfired | split; [vm_compute; reflexivity |]].
  refine (fires_are_more_than_a_second_apart Sample.GPIODIRLEN
            Sample.EDGE_SWITCH Sample.script_dir Sample.pins 1%nat
            Sample.pin17 pin17_reads_1
            (Sample.only 1 "0" 101 (Sample.script_exits 0)) at_rest _
            eq_refl eq_refl Hlen Hfired _ _ _).
  - vm_compute. reflexivity.
  - vm_compute. split; discriminate.
  - vm_compute. discriminate.
Defined.

(** Pin 17 reads 1; the read for pin 4 then delivers nothing, and pin 4
    fires with 1. *)
Lemma empty_read_fires_the_previous_byte_witness :
  ready_with "1" reads_1
  /\ edge Sample.pin4 <> Sample.EDGE_SWITCH
  /\ Z.land (revents (Sample.reads_nothing 100 (Sample.script_exits 0)))
            POLLPRI <> 0
  /\ read_bytes (Sample.reads_nothing 100 (Sample.script_exits 0)) = []
  /\ calls (sample_service_pin 0%nat Sample.pin4
              (Sample.reads_nothing 100 (Sample.script_exits 0))
              (sample_service_pin 1%nat Sample.pin17 reads_1 at_rest).1).2
     = [(4, 1)].
Proof.
  assert (Hready : ready_with "1" reads_1).
  { split; [vm_compute; discriminate | eexists; reflexivity]. }
  assert (Hedge : edge Sample.pin4 <> Sample.EDGE_SWITCH)
    by (vm_compute; discriminate).
  assert (Hpri : Z.land (revents (Sample.reads_nothing 100
                                    (Sample.script_exits 0))) POLLPRI <> 0)
    by (vm_compute; discriminate).
  split; [exact Hready | split; [exact Hedge | split; [exact Hpri |]]].
  split; [reflexivity |].
  exact (empty_read_fires_the_previous_byte Sample.GPIODIRLEN
           Sample.EDGE_SWITCH Sample.script_dir 0%nat 1%nat Sample.pin4
           Sample.pin17 (Sample.reads_nothing 100 (Sample.script_exits 0))
           reads_1 at_rest "1" Hready Hedge Hpri eq_refl).
Defined.

(** Pin 12345678 with [GPIODIRLEN] 8: the script is found under its full
    name and is told pin 1234567. *)
Lemma buffers_hold_short_pins_whole_witness :
  String.length (fmt_d (pin Sample.long_pin)) = Sample.GPIODIRLEN
  /\ script_path_of Sample.GPIODIRLEN Sample.script_dir (pin Sample.long_pin)
     = "/etc/gpio-scripts/12345678"
  /\ snprintf Sample.GPIODIRLEN (fmt_d (pin Sample.long_pin)) = "1234567"
  /\ snprintf Sample.GPIODIRLEN (fmt_d (pin Sample.long_pin))
     <> fmt_d (pin Sample.long_pin).
Proof.
  assert (Hlen : String.length (fmt_d (pin Sample.long_pin))
                 = Sample.GPIODIRLEN) by reflexivity.
  destruct (proj2 (proj2 (proj2 (buffers_hold_short_pins_whole
              Sample.GPIODIRLEN Sample.GPIO_BASE Sample.script_dir
              Sample.long_pin))) Hlen) as (Hpath & Hcut & _).
  split; [exact Hlen | split; [exact Hpath | split; [reflexivity |]]].
  exact Hcut.
Defined.

(** Operands [17] and [17:switch]. *)
Lemma decimal_operand_names_its_pin_witness :
  INT_MIN <= 17 <= INT_MAX
  /\ Sample.parse_edge "switch" <> -1
  /\ pinspec_loop Sample.parse_edge ["17"] sample_globals
     = ([], Go (add_pin sample_globals
                  {| pin := 17; edge := Sample.EDGE_BOTH |}))
  /\ pinspec_loop Sample.parse_edge ["17:switch"] sample_globals
     = ([], Go (add_pin sample_globals
                  {| pin := 17; edge := Sample.EDGE_SWITCH |})).
Proof.
  assert (Hn : INT_MIN <= 17 <= INT_MAX) by (vm_compute; split; discriminate).
  assert (Hok : Sample.parse_edge "switch" <> -1) by (vm_compute; discriminate).
  destruct (decimal_operand_names_its_pin Sample.parse_edge sample_globals
              17 "switch" Hn) as [Hplain Hedge].
  exact (conj Hn (conj Hok (conj Hplain (Hedge Hok)))).
Defined.

(** Operand [foo]. *)
Lemma operand_that_is_no_number_is_pin_0_witness :
  isspace "f" = false /\ digit_of "f" = None
  /\ "f"%char <> "-"%char /\ "f"%char <> "+"%char
  /\ split_at ":" "foo" = None
  /\ atoi "foo" = 0
  /\ pinspec_loop Sample.parse_edge ["foo"] sample_globals
     = ([], Go (add_pin sample_globals
                  {| pin := 0; edge := Sample.EDGE_BOTH |})).
Proof.
  assert (Hm : "f"%char <> "-"%char) by discriminate.
  assert (Hp : "f"%char <> "+"%char) by discriminate.
  destruct (operand_that_is_no_number_is_pin_0 Sample.parse_edge
              sample_globals "f" "oo" eq_refl eq_refl Hm Hp)
    as (Hatoi & _ & Hloop).
  exact (conj eq_refl (conj eq_refl (conj Hm (conj Hp
           (conj eq_refl (conj Hatoi (Hloop eq_refl))))))).
Defined.

Lemma operands_become_the_table_witness :
  Forall (fun arg => bad_edge_spec Sample.parse_edge arg = false)
         ["4"; "17:switch"]
  /\ pinspec_loop Sample.parse_edge ["4"; "17:switch"] sample_globals
     = ([], Go (set_pins sample_globals [Sample.pin4; Sample.pin17])).
Proof.
  assert (Hgood : Forall (fun arg => bad_edge_spec Sample.parse_edge arg
                                     = false) ["4"; "17:switch"])
    by (repeat constructor).
  split; [exact Hgood |].
  exact (operands_become_the_table Sample.parse_edge ["4"; "17:switch"]
           sample_globals Hgood).
Defined.

(** Operands [4 17:sideways 22]. *)
Lemma first_bad_edge_spec_stops_witness :
  Forall (fun a => bad_edge_spec Sample.parse_edge a = false) ["4"]
  /\ bad_edge_spec Sample.parse_edge "17:sideways" = true
  /\ pinspec_loop Sample.parse_edge ["4"; "17:sideways"; "22"] sample_globals
     = ([Fprintf_stderr ("error: unknown edge spec: 17:sideways"
                         +:+ newline_text)], Stop 1).
Proof.
  assert (Hgood : Forall (fun a => bad_edge_spec Sample.parse_edge a = false)
                         ["4"]) by (repeat constructor).
  split; [exact Hgood | split; [reflexivity |]].
  exact (first_bad_edge_spec_stops Sample.parse_edge ["4"] "17:sideways"
           ["22"] sample_globals Hgood eq_refl).
Defined.

(** [-v -D -s /srv/gpio -d]. *)
Lemma options_summed_up_witness :
  exists g',
    option_loop Sample.parse_edge (getopt_answers Sample.command_line)
                sample_globals = ([], Go g')
    /\ g_loglevel g' = 1
    /\ g_detach g' = 1
    /\ g_script_dir g' = "/srv/gpio"
    /\ g_logfile g' = None
    /\ g_default_edge g' = Sample.EDGE_BOTH.
Proof.
  eexists. split; [vm_compute; reflexivity |].
  destruct (options_summed_up Sample.parse_edge
              (getopt_answers Sample.command_line) sample_globals [] _
              ltac:(vm_compute; reflexivity))
    as (_ & _ & Hv & Hd & Hs & Hl & He).
  exact (conj Hv (conj Hd (conj Hs (conj Hl He)))).
Defined.

(** [gpio-watch -e sideways 4]. *)
Lemma exit_before_any_pin_is_touched_witness :
  main_startup Sample.parse_edge Sample.DIRECTION_IN Sample.bad_default_edge
               sample_globals
  = ([Fprintf_stderr ("error: invalid edge value: sideways"
                      +:+ newline_text)], Exit 1)
  /\ Forall (fun e => configures e = false)
            [Fprintf_stderr ("error: invalid edge value: sideways"
                             +:+ newline_text)].
Proof.
  assert (Hrun : main_startup Sample.parse_edge Sample.DIRECTION_IN
                   Sample.bad_default_edge sample_globals
                 = ([Fprintf_stderr ("error: invalid edge value: sideways"
                                     +:+ newline_text)], Exit 1))
    by reflexivity.
  split; [exact Hrun |].
  exact (proj1 (exit_before_any_pin_is_touched Sample.parse_edge
                  Sample.DIRECTION_IN Sample.bad_default_edge sample_globals
                  _ 1 Hrun)).
Defined.

(** [gpio-watch -v -D -s /srv/gpio -d 4 17:switch]. *)
Lemma watch_pins_follows_full_setup_witness :
  exists t g,
    main_startup Sample.parse_edge Sample.DIRECTION_IN Sample.command_line
                 sample_globals = (t, Watch g)
    /\ g_pins g = [Sample.pin4; Sample.pin17]
    /\ t = [Pin_export 4; Pin_set_edge 4 3; Pin_set_direction 4 0;
            Pin_export 17; Pin_set_edge 17 4; Pin_set_direction 17 0;
            Daemon 1 0].
Proof.
  eexists _, _. split; [vm_compute; reflexivity |].
  destruct (watch_pins_follows_full_setup Sample.parse_edge
              Sample.DIRECTION_IN Sample.command_line sample_globals _ _
              ltac:(vm_compute; reflexivity))
    as (g1 & Hopt & _ & _ & Hpins & _ & Ht & _).
  vm_compute in Hopt. injection Hopt as <-.
  split; [exact Hpins | exact Ht].
Defined.

(** [gpio-watch -l /var/log/gpio -s /nowhere 4:sideways]: the directory
    is reported, the operand is not. *)
Lemma operands_wait_for_log_file_and_script_dir_witness :
  exists g1,
    option_loop Sample.parse_edge (getopt_answers Sample.no_directory)
                sample_globals = ([], Go g1)
    /\ is_dir Sample.no_directory (g_script_dir g1) = false
    /\ main_arguments Sample.parse_edge Sample.no_directory sample_globals
       = ([Close 1; Close 2; Dup 5; Dup 5;
           Log_error ("error: script directory " +:+ dquote +:+ "/nowhere"
                      +:+ dquote +:+ " does not exist.")], Stop 1).
Proof.
  eexists. split; [vm_compute; reflexivity |].
  split; [reflexivity |].
  refine (proj2 (operands_wait_for_log_file_and_script_dir Sample.parse_edge
                   Sample.no_directory sample_globals _
                   ltac:(vm_compute; reflexivity)) _ eq_refl).
  intros path _. vm_compute. discriminate.
Defined.

Lemma operand_text_reaches_the_script_witness :
  0 <= 17 <= INT_MAX
  /\ (String.length (fmt_d 17) < Sample.GPIODIRLEN)%nat
  /\ exists p,
       pinspec_loop Sample.parse_edge ["17"] sample_globals
       = ([], Go (add_pin sample_globals p))
       /\ run_script Sample.GPIODIRLEN (g_script_dir sample_globals)
                     (Sample.script_exits 0) (pin p) 1
          = [Run_script 17 1;
             Log LOG_INFO "pin 17: running script /etc/gpio-scripts/17";
             Spawn "/etc/gpio-scripts/17" ["/etc/gpio-scripts/17"; "17"; "1"];
             Wait 0].
Proof.
  assert (Hn : 0 <= 17 <= INT_MAX) by (vm_compute; split; discriminate).
  assert (Hfit : (String.length (fmt_d 17) < Sample.GPIODIRLEN)%nat)
    by (vm_compute; lia).
  split; [exact Hn | split; [exact Hfit |]].
  destruct (operand_text_reaches_the_script Sample.GPIODIRLEN
              Sample.parse_edge sample_globals 17 (Sample.script_exits 0) 1
              Hn Hfit) as (p & Hloop & Hrun).
  exists p. split; [exact Hloop |].
  assert (Hfile : is_file (Sample.script_exits 0)
                    (script_path_of Sample.GPIODIRLEN
                       (g_script_dir sample_globals) (pin p)) = true)
    by reflexivity.
  exact (Hrun Hfile eq_refl).
Defined.

(** [-v -e sideways -d] and [-v -x -d]. *)
Lemma first_bad_option_stops_witness :
  option_loop Sample.parse_edge [("v"%char, "")] sample_globals
  = ([], Go (set_loglevel sample_globals 1))
  /\ Sample.parse_edge "sideways" = -1
  /\ option_loop Sample.parse_edge
       [("v"%char, ""); ("e"%char, "sideways"); ("d"%char, "")]
       sample_globals
     = ([Fprintf_stderr ("error: invalid edge value: sideways"
                         +:+ newline_text)], Stop 1)
  /\ option_loop Sample.parse_edge
       [("v"%char, ""); ("?"%char, ""); ("d"%char, "")] sample_globals
     = (usage_stderr, Stop 2).
Proof.
  assert (Hpre : option_loop Sample.parse_edge [("v"%char, "")] sample_globals
                 = ([], Go (set_loglevel sample_globals 1))) by reflexivity.
  destruct (first_bad_option_stops Sample.parse_edge [("v"%char, "")]
              sample_globals _ "sideways" [("d"%char, "")] Hpre)
    as [Hedge _].
  destruct (first_bad_option_stops Sample.parse_edge [("v"%char, "")]
              sample_globals _ "" [("d"%char, "")] Hpre)
    as [_ Husage].
  exact (conj Hpre (conj eq_refl (conj (Hedge eq_refl) Husage))).
Defined.
